(** * Container state synchronisation: [pkg/singularity/runtime/sync.go]

    A shallow embedding of [ObserveState] and [syncOnConn].  The Go code is a
    background task that talks to its environment (a cancellation context, a
    unix socket listener, one connection carrying JSON values, an unbuffered
    channel).  The embedding makes that environment explicit:

    - the context is the number of polls of [ctx.Done()] that still find it
      open (once done, a context stays done);
    - the listener is the list of results its [Accept] calls will give;
    - a connection is the list of JSON values (or broken payloads) the peer
      writes, followed by what the peer does next: close, stay silent, or
      stall in the middle of a value;
    - everything the task does to the outside is appended to a trace.

    The two [for] loops take a fuel argument, one unit per iteration; a run
    ends as [Returned], [Blocked] (inside a call that never comes back) or
    [OutOfFuel] (still looping). *)

From Stdlib Require Import List String Ascii Bool Arith Lia.
Import ListNotations.
Local Open Scope string_scope.
Local Open Scope list_scope.
Set Warnings "-register-all".

(** ** Lifecycle states (lines 11-23) *)

Inductive State : Type :=
| StateCreating
| StateCreated
| StateRunning
| StateExited.

(** [State] is an [int]; the constants are [1 + iota]. *)
Definition State_int (s : State) : nat :=
  match s with
  | StateCreating => 1 + 0
  | StateCreated => 1 + 1
  | StateRunning => 1 + 2
  | StateExited => 1 + 3
  end.

(** ** [encoding/json] as the code uses it

    The package belongs to the Go standard library, not to the repository.
    The module gives its documented behaviour on the one target type the
    code decodes into, at the level of JSON values: how the bytes of a
    value are scanned is left out, what a value does to the struct is
    not. *)

Module Json.

(** A syntactically valid JSON value. *)
Inductive json : Type :=
| JNull
| JBool (b : bool)
| JNumber (literal : string)
| JString (s : string)
| JArray (elems : list json)
| JObject (members : list (string * json)).

Inductive decodeError : Type :=
| SyntaxError
| ErrUnexpectedEOF
| EOF
| UnmarshalTypeError.

(** The local type of [syncOnConn] (lines 64-66). *)
Record statusInfo : Type := { Status : string }.

Definition lower (c : ascii) : ascii :=
  let n := nat_of_ascii c in
  if ((65 <=? n) && (n <=? 90))%nat then ascii_of_nat (n + 32) else c.

Definition is_byte (c : ascii) (n : nat) : bool := (nat_of_ascii c =? n)%nat.

(** Key folding: a struct field accepts a key that equals its name up to
    Unicode simple case folding.  On names of ASCII letters that is
    ASCII case plus U+017F (long s, bytes C5 BF) for [s] and U+212A
    (Kelvin sign, bytes E2 84 AA) for [k]. *)
Fixpoint foldName (key : string) : string :=
  match key with
  | EmptyString => EmptyString
  | String c rest =>
    match rest with
    | EmptyString => String (lower c) EmptyString
    | String c2 rest2 =>
      if is_byte c 197 && is_byte c2 191 then String "s" (foldName rest2)
      else
        match rest2 with
        | EmptyString => String (lower c) (foldName rest)
        | String c3 rest3 =>
          if is_byte c 226 && is_byte c2 132 && is_byte c3 170
          then String "k" (foldName rest3)
          else String (lower c) (foldName rest)
        end
    end
  end.

(** Does [key] select the field tagged [json:"status"]? *)
Definition isStatusKey (key : string) : bool := foldName key =? "status".

(** The first type error is kept, decoding goes on. *)
Definition saveError (saved : option decodeError) (e : decodeError)
  : option decodeError :=
  match saved with
  | None => Some e
  | Some _ => saved
  end.

(** Unmarshalling the members of an object into a [statusInfo], in order:
    a member whose key selects [Status] stores a string, has no effect
    when it is [null], and is a type error otherwise; other members are
    skipped.  A field no member selects keeps the value it had. *)
Fixpoint object (members : list (string * json)) (v : statusInfo)
         (saved : option decodeError) : statusInfo * option decodeError :=
  match members with
  | [] => (v, saved)
  | (key, item) :: members' =>
    if isStatusKey key then
      match item with
      | JString s => object members' {| Status := s |} saved
      | JNull => object members' v saved
      | _ => object members' v (saveError saved UnmarshalTypeError)
      end
    else object members' v saved
  end.

(** Unmarshalling a value into a [*statusInfo]: [null] has no effect, an
    object is unmarshalled member by member, anything else is a type
    error.  The struct is updated in place, so the result also gives the
    struct after the call. *)
Definition unmarshal (j : json) (v : statusInfo)
  : statusInfo * option decodeError :=
  match j with
  | JNull => (v, None)
  | JObject members => object members v None
  | _ => (v, Some UnmarshalTypeError)
  end.

(** What the peer writes on a connection, one entry per top-level value
    the decoder will meet.  White space between values is left out: [More]
    and [Decode] skip it.

    The decoder sees the end of an object or array at its closing bracket.
    It sees the end of a number, string or literal only at the byte after
    it, or at the end of the connection.  In the list every [Value] is one
    whose end the decoder sees: what follows it is the next entry, or what
    the [ending] says. *)
Inductive token : Type :=
| Value (j : json)   (* a complete JSON value *)
| Malformed          (* bytes that break the grammar of JSON and do not
                        begin with a closing bracket or brace: the
                        scanner rejects them at the offending byte *)
| Truncated          (* the first bytes of a value; the rest never comes *)
| CloseDelim.        (* a stray closing bracket or brace *)

(** What the peer does once it has written the entries of the list. *)
Inductive ending : Type :=
| PeerClosed   (* it closes the connection: reads give end of file *)
| PeerIdle     (* it keeps the connection open and stays silent, leaving
                  no value unfinished: the last byte it wrote is white
                  space or the closing bracket of an object or array *)
| PeerStalled. (* it keeps the connection open and stays silent in the
                  middle of things: it has written the first bytes of one
                  more value, or a number, string or literal with no byte
                  after it, and nothing more *)

(** [json.NewDecoder(conn)]: the decoder state is the unread input. *)
Record Decoder : Type := { unread : list token; tail : ending }.

(** [dec.More()]: looks at the next non-space byte without consuming it;
    true unless reading fails or the byte is a closing bracket or brace.
    [None]: the read never comes back. *)
Definition More (dec : Decoder) : option bool :=
  match unread dec with
  | [] => match tail dec with
          | PeerClosed => Some false
          | PeerIdle => None
          | PeerStalled => Some true
          end
  | CloseDelim :: _ => Some false
  | _ :: _ => Some true
  end.

(** [dec.Decode(&status)]: reads bytes until it has seen the end of one
    value, then unmarshals it.  [None]: the call never comes back, because
    the end of the value is neither written nor cut off by the end of the
    connection.  That is the case of an unfinished value on a connection
    that stays open: the value a stalled peer has begun, and a [Truncated]
    one unless the peer closes. *)
Definition Decode (dec : Decoder) (v : statusInfo)
  : option (Decoder * statusInfo * option decodeError) :=
  match unread dec with
  | [] =>
    match tail dec with
    | PeerClosed => Some (dec, v, Some EOF)
    | PeerIdle | PeerStalled => None
    end
  | Value j :: rest =>
    let '(v', err) := unmarshal j v in
    Some ({| unread := rest; tail := tail dec |}, v', err)
  | Malformed :: rest =>
    Some ({| unread := rest; tail := tail dec |}, v, Some SyntaxError)
  | Truncated :: rest =>
    match tail dec with
    | PeerClosed =>
      Some ({| unread := rest; tail := tail dec |}, v, Some ErrUnexpectedEOF)
    | PeerIdle | PeerStalled => None
    end
  | CloseDelim :: rest =>
    Some ({| unread := rest; tail := tail dec |}, v, Some SyntaxError)
  end.

(** The message a well-behaved peer sends: an object with the one member
    [status]. *)
Definition wire (s : string) : json := JObject [("status", JString s)].

End Json.
Import Json.

(** ** The environment and the trace *)

(** The lines the code logs, by call site. *)
Inductive logLine : Type :=
| LogContextDone                 (* line 45 *)
| LogAcceptFailed                (* line 50 *)
| LogSyncContextDone             (* line 74 *)
| LogGotData                     (* line 78 *)
| LogDecodeFailed                (* line 81 *)
| LogStopped                     (* line 93 *)
| LogUnknown (status : string).  (* line 96 *)

Inductive event : Type :=
| Accept                (* ln.Accept() is called *)
| Send (s : State)      (* syncChan <- s, received by the consumer *)
| CloseChan             (* close(syncChan) *)
| CloseListener         (* ln.Close() *)
| CloseConn             (* conn.Close() *)
| Log (l : logLine).

(** [Some n]: the next [n] polls of [ctx.Done()] find it open, every later
    one finds it closed.  [None]: the context is never cancelled. *)
Definition Context : Type := option nat.

Definition poll (c : Context) : bool * Context :=
  match c with
  | None => (false, None)
  | Some 0 => (true, Some 0)
  | Some (S n) => (false, Some n)
  end.

Record world : Type := { ctx : Context; trace : list event }.

Inductive result (A : Type) : Type :=
| Returned (a : A) (w : world)
| Blocked (w : world)
| OutOfFuel (w : world).
Arguments Returned {A} a w.
Arguments Blocked {A} w.
Arguments OutOfFuel {A} w.

Definition final {A} (r : result A) : world :=
  match r with
  | Returned _ w => w
  | Blocked w => w
  | OutOfFuel w => w
  end.

(** A task is a function of the world. *)
Definition M (A : Type) : Type := world -> result A.

Definition ret {A} (a : A) : M A := fun w => Returned a w.

Definition bind {A B} (m : M A) (k : A -> M B) : M B :=
  fun w =>
    match m w with
    | Returned a w' => k a w'
    | Blocked w' => Blocked w'
    | OutOfFuel w' => OutOfFuel w'
    end.

Notation "x <- m ;; k" := (bind m (fun x => k))
  (at level 61, m at next level, right associativity).
Notation "m ;; k" := (bind m (fun _ => k))
  (at level 61, right associativity).

Definition emit (e : event) : M unit :=
  fun w => Returned tt {| ctx := ctx w; trace := trace w ++ [e] |}.

Definition log (l : logLine) : M unit := emit (Log l).

(** [syncChan <- s] on the unbuffered channel; the consumer is taken to
    receive every value it is offered. *)
Definition send (s : State) : M unit := emit (Send s).

(** [select { case <-ctx.Done(): ... default: ... }] *)
Definition ctxDone : M bool :=
  fun w => Returned (fst (poll (ctx w)))
                    {| ctx := snd (poll (ctx w)); trace := trace w |}.

Definition block {A} : M A := fun w => Blocked w.
Definition outOfFuel {A} : M A := fun w => OutOfFuel w.

(** [defer]: the call is made when the function returns. *)
Definition defer {A} (cleanup : event) (body : M A) : M A :=
  a <- body ;; emit cleanup ;; ret a.

(** ** [syncOnConn] (lines 63-101) *)

Fixpoint syncLoop (fuel : nat) (dec : Decoder) (status : statusInfo) : M bool :=
  match fuel with
  | 0 => outOfFuel
  | S fuel' =>
    done <- ctxDone ;;
    if done then
      log LogSyncContextDone ;; ret false
    else
      match More dec with
      | None => block
      | Some false => syncLoop fuel' dec status
      | Some true =>
        log LogGotData ;;
        match Decode dec status with
        | None => block
        | Some (dec', status', Some _) => log LogDecodeFailed ;; ret true
        | Some (dec', status', None) =>
          if Status status' =? "creating" then
            send StateCreating ;; syncLoop fuel' dec' status'
          else if Status status' =? "created" then
            send StateCreated ;; syncLoop fuel' dec' status'
          else if Status status' =? "running" then
            send StateRunning ;; syncLoop fuel' dec' status'
          else if Status status' =? "stopped" then
            send StateExited ;; log LogStopped ;; ret true
          else
            log (LogUnknown (Status status')) ;; syncLoop fuel' dec' status'
        end
      end
  end.

(** A connection is the decoder input it carries; [status] starts as the
    zero value of [statusInfo] and lives across iterations (line 70). *)
Definition syncOnConn (fuel : nat) (conn : Decoder) : M bool :=
  defer CloseConn (syncLoop fuel conn {| Status := "" |}).

(** ** [ObserveState] (lines 31-61) *)

Inductive acceptResult : Type :=
| AcceptFailed
| Accepted (conn : Decoder).

(** A listener is the list of results its [Accept] calls give; after the
    last one no peer connects any more and [Accept] blocks. *)
Definition Listener : Type := list acceptResult.

(** The [return] that ends the accept loop. *)
Inductive exit : Type :=
| ExitCancelled      (* line 46 *)
| ExitAcceptFailed   (* line 51 *)
| ExitDecoder.       (* line 55 *)

Fixpoint acceptLoop (fuel : nat) (ln : Listener) : M exit :=
  match fuel with
  | 0 => outOfFuel
  | S fuel' =>
    done <- ctxDone ;;
    if done then
      log LogContextDone ;; ret ExitCancelled
    else
      emit Accept ;;
      match ln with
      | [] => block
      | AcceptFailed :: _ => log LogAcceptFailed ;; ret ExitAcceptFailed
      | Accepted conn :: ln' =>
        shouldExit <- syncOnConn fuel' conn ;;
        if shouldExit then ret ExitDecoder else acceptLoop fuel' ln'
      end
  end.

(** The background task (lines 38-59); deferred calls run last in, first
    out. *)
Definition background (fuel : nat) (ln : Listener) : M exit :=
  defer CloseChan (defer CloseListener (acceptLoop fuel ln)).

Inductive listenResult : Type :=
| Listening (ln : Listener)
| ListenFailed (err : string).

(** [ObserveState]: [netListen] is [net.Listen("unix", _)].  The returned
    channel is given as the run of the task that writes to it, [None] for
    the nil channel; the error as its text, [None] for nil. *)
Definition ObserveState (fuel : nat) (netListen : string -> listenResult)
           (c : Context) (socket : string)
  : option (result exit) * option string :=
  match netListen socket with
  | ListenFailed err => (None, Some (String.append "could not listen sync socket: " err))
  | Listening ln =>
    (Some (background fuel ln {| ctx := c; trace := [] |}), None)
  end.

(** ** Reading a trace *)

Fixpoint sent (tr : list event) : list State :=
  match tr with
  | [] => []
  | Send s :: tr' => s :: sent tr'
  | _ :: tr' => sent tr'
  end.

Definition is_event (e e' : event) : bool :=
  match e, e' with
  | Accept, Accept => true
  | CloseChan, CloseChan => true
  | CloseListener, CloseListener => true
  | CloseConn, CloseConn => true
  | _, _ => false
  end.

Definition count (e : event) (tr : list event) : nat :=
  List.length (filter (is_event e) tr).

(** The mapping table of the [switch] (lines 84-97), non-terminal rows. *)
Definition mapped (s : string) : option State :=
  if s =? "creating" then Some StateCreating
  else if s =? "created" then Some StateCreated
  else if s =? "running" then Some StateRunning
  else None.

Definition recognized (s : string) : bool :=
  (s =? "creating") || (s =? "created") || (s =? "running") || (s =? "stopped").

Definition emitted (ss : list string) : list State :=
  flat_map (fun s => match mapped s with Some st => [st] | None => [] end) ss.

(** ** Vocabulary of the statements *)

(** At least [n] more polls find the context open. *)
Definition live (c : Context) (n : nat) : Prop :=
  match c with
  | None => True
  | Some k => n <= k
  end.

(** The context after [n] polls. *)
Definition advance (n : nat) (c : Context) : Context :=
  match c with
  | None => None
  | Some k => Some (k - n)
  end.

(** The statuses the loop switches on when the values [js] are decoded one
    after the other into the same struct, which holds [v] at first: after
    each [Decode] the value of [status.Status].  [None] when one of the
    values fails to decode. *)
Fixpoint decoded (v : statusInfo) (js : list json) : option (list string) :=
  match js with
  | [] => Some []
  | j :: js' =>
    match unmarshal j v with
    | (v', None) => option_map (cons (Status v')) (decoded v' js')
    | (_, Some _) => None
    end
  end.

(** The status variable after the statuses [ss] were decoded in turn. *)
Definition statusAfter (ss : list string) (v : statusInfo) : statusInfo :=
  fold_left (fun _ s => {| Status := s |}) ss v.

(** The zero value the status variable starts with (line 70). *)
Definition status0 : statusInfo := {| Status := "" |}.

(** What one loop iteration appends to the trace for a decoded status other
    than ["stopped"]. *)
Definition reaction (s : string) : list event :=
  match mapped s with
  | Some x => [Log LogGotData; Send x]
  | None => [Log LogGotData; Log (LogUnknown s)]
  end.

Definition reactions (ss : list string) : list event := flat_map reaction ss.

(** [Decode] is reached and returns an error: [More] answers true on the
    input, and [Decode] comes back with an error whatever the struct
    holds. *)
Definition decodeFails (dec : Decoder) : Prop :=
  More dec = Some true /\
  forall v, exists dec' v' e, Decode dec v = Some (dec', v', Some e).

(** An object none of whose keys selects the [Status] field. *)
Definition lacksStatus (members : list (string * json)) : bool :=
  forallb (fun m => negb (isStatusKey (fst m))) members.

(** A value that is neither an object nor [null], or an object in which a
    member selecting [Status] is neither a string nor [null]. *)
Definition wrongShape (j : json) : bool :=
  match j with
  | JNull => false
  | JObject members =>
    existsb (fun m => isStatusKey (fst m) &&
                      match snd m with
                      | JString _ | JNull => false
                      | _ => true
                      end) members
  | _ => true
  end.

(** The events that precede the deferred calls, by exit. *)
Definition cause (x : exit) : list event :=
  match x with
  | ExitCancelled => [Log LogContextDone]
  | ExitAcceptFailed => [Accept; Log LogAcceptFailed]
  | ExitDecoder => [CloseConn]
  end.

(** Events the decoder loop may append. *)
Definition loop_event (e : event) : bool :=
  match e with
  | Send _ | Log _ => true
  | _ => false
  end.

(** Events the accept loop may append. *)
Definition task_event (e : event) : bool :=
  match e with
  | CloseChan | CloseListener => false
  | _ => true
  end.

(** The task has not returned. *)
Definition pending {A} (r : result A) : Prop :=
  match r with
  | Returned _ _ => False
  | Blocked _ | OutOfFuel _ => True
  end.

(** ** Reference functions for the whole input

    What a connection makes the decoder send when it is read as far as the
    loop can go: one state per message that leaves a known non-terminal
    status, [StateExited] for the first message that leaves ["stopped"],
    and nothing from the first token on which the loop stops reading (a
    decode failure, a stray closing delimiter, the terminal value). *)
Fixpoint states (v : statusInfo) (toks : list token) : list State :=
  match toks with
  | Value j :: rest =>
    match unmarshal j v with
    | (v', None) =>
      if Status v' =? "stopped" then [StateExited]
      else match mapped (Status v') with
           | Some x => x :: states v' rest
           | None => states v' rest
           end
    | (_, Some _) => []
    end
  | _ => []
  end.

(** What a listener makes a session send: the states of the connection
    its first [Accept] gives, if it gives one. *)
Definition sessionStates (ln : Listener) : list State :=
  match ln with
  | Accepted conn :: _ => states status0 (unread conn)
  | _ => []
  end.

Definition prefix {A} (p l : list A) : Prop := exists q, l = p ++ q.

(** The decoder is done with the input: it returned true, or waits for
    bytes a silent peer never writes. *)
Definition settled (r : result bool) : Prop :=
  match r with
  | Returned true _ | Blocked _ => True
  | _ => False
  end.

(** The last events of a decoder loop that returned, by returned value. *)
Definition verdict (b : bool) (es : list event) : Prop :=
  if b then
    (exists pre, es = pre ++ [Log LogGotData; Log LogDecodeFailed]) \/
    (exists pre, es = pre ++ [Log LogGotData; Send StateExited; Log LogStopped])
  else
    exists pre, es = pre ++ [Log LogSyncContextDone].

Ltac run := unfold bind, ctxDone, log, send, emit, ret, block, outOfFuel; simpl.

(** * Properties *)

(** ** Checks of the model on small inputs *)

Example State_int_values :
  map State_int [StateCreating; StateCreated; StateRunning; StateExited] =
  [1; 2; 3; 4].
Proof. reflexivity. Qed.

Example isStatusKey_values :
  map isStatusKey ["status"; "Status"; "STATUS"; "state"; "statuss"; ""] =
  [true; true; true; false; false; false].
Proof. reflexivity. Qed.

Example isStatusKey_long_s :
  isStatusKey (String (ascii_of_nat 197) (String (ascii_of_nat 191) "tatus")) = true.
Proof. reflexivity. Qed.

Example unmarshal_values :
  unmarshal (JObject [("pid", JNumber "7"); ("Status", JString "created")])
            {| Status := "creating" |} = ({| Status := "created" |}, None) /\
  unmarshal (JObject [("status", JBool true)]) {| Status := "creating" |} =
    ({| Status := "creating" |}, Some UnmarshalTypeError) /\
  unmarshal (JArray []) {| Status := "creating" |} =
    ({| Status := "creating" |}, Some UnmarshalTypeError).
Proof. repeat split. Qed.

(** Creating, running, stopped: three states, then the channel is closed. *)
Example scenario_full_lifecycle :
  ObserveState 5
    (fun _ => Listening
                [Accepted {| unread := [Value (wire "creating");
                                        Value (wire "running");
                                        Value (wire "stopped")];
                             tail := PeerIdle |}])
    None "/run/sync.sock" =
  (Some (Returned ExitDecoder
           {| ctx := None;
              trace := [Accept;
                        Log LogGotData; Send StateCreating;
                        Log LogGotData; Send StateRunning;
                        Log LogGotData; Send StateExited; Log LogStopped;
                        CloseConn; CloseListener; CloseChan] |}),
   None).
Proof. reflexivity. Qed.

(** Cancelled before any connection is accepted: nothing is sent. *)
Example scenario_cancelled_before_accept :
  background 1 [Accepted {| unread := [Value (wire "creating")];
                            tail := PeerIdle |}]
             {| ctx := Some 0; trace := [] |} =
  Returned ExitCancelled
           {| ctx := Some 0;
              trace := [Log LogContextDone; CloseListener; CloseChan] |}.
Proof. reflexivity. Qed.

(** A stray closing brace is never consumed: the loop keeps turning. *)
Example scenario_stray_brace :
  syncOnConn 50 {| unread := [CloseDelim; Value (wire "created")];
                   tail := PeerIdle |}
             {| ctx := None; trace := [] |} =
  OutOfFuel {| ctx := None; trace := [] |}.
Proof. reflexivity. Qed.

(** A number and nothing after it, on a connection that stays open: the
    decoder cannot tell that the number is complete, and [Decode] does not
    come back.  With a closed connection the end of file ends the number,
    and the type error ends the session. *)
Example scenario_number_then_silence :
  background 9 [Accepted {| unread := []; tail := PeerStalled |}]
             {| ctx := None; trace := [] |} =
    Blocked {| ctx := None; trace := [Accept; Log LogGotData] |} /\
  background 9 [Accepted {| unread := [Value (JNumber "7")]; tail := PeerClosed |}]
             {| ctx := None; trace := [] |} =
    Returned ExitDecoder
             {| ctx := None;
                trace := [Accept; Log LogGotData; Log LogDecodeFailed;
                          CloseConn; CloseListener; CloseChan] |}.
Proof. split; reflexivity. Qed.

(** A running message, then a literal with no byte after it: one state is
    sent, and the loop stays inside [Decode]. *)
Example scenario_literal_after_running :
  background 9 [Accepted {| unread := [Value (wire "running")];
                            tail := PeerStalled |}]
             {| ctx := None; trace := [] |} =
  Blocked {| ctx := None;
             trace := [Accept; Log LogGotData; Send StateRunning;
                       Log LogGotData] |}.
Proof. reflexivity. Qed.

(** A value cut short: [Decode] waits while the connection stays open, and
    fails when the peer closes. *)
Example scenario_cut_value :
  background 9 [Accepted {| unread := [Truncated]; tail := PeerIdle |}]
             {| ctx := None; trace := [] |} =
    Blocked {| ctx := None; trace := [Accept; Log LogGotData] |} /\
  background 9 [Accepted {| unread := [Truncated]; tail := PeerClosed |}]
             {| ctx := None; trace := [] |} =
    Returned ExitDecoder
             {| ctx := None;
                trace := [Accept; Log LogGotData; Log LogDecodeFailed;
                          CloseConn; CloseListener; CloseChan] |}.
Proof. split; reflexivity. Qed.

(** ** Traces *)

Lemma sent_app (a b : list event) : sent (a ++ b) = sent a ++ sent b.
Proof.
  induction a as [|e a IH]; simpl; [reflexivity|].
  destruct e; simpl; rewrite IH; reflexivity.
Qed.

Lemma count_app (e : event) (a b : list event) :
  count e (a ++ b) = count e a + count e b.
Proof. unfold count. rewrite filter_app, length_app. reflexivity. Qed.

Lemma sent_reaction (s : string) :
  sent (reaction s) = match mapped s with Some x => [x] | None => [] end.
Proof. unfold reaction. destruct (mapped s); reflexivity. Qed.

Lemma sent_reactions (ss : list string) : sent (reactions ss) = emitted ss.
Proof.
  induction ss as [|s ss IH]; simpl; [reflexivity|].
  rewrite sent_app, sent_reaction, IH. reflexivity.
Qed.

Lemma loop_events_count (e : event) (es : list event) :
  loop_event e = false -> forallb loop_event es = true -> count e es = 0.
Proof.
  intros He. induction es as [|x es IH]; simpl; [reflexivity|].
  intros H. apply andb_prop in H. destruct H as [Hx Hes].
  unfold count in *. simpl.
  destruct e, x; simpl in *; try discriminate; auto.
Qed.

Lemma reactions_loop_events (ss : list string) :
  forallb loop_event (reactions ss) = true.
Proof.
  induction ss as [|s ss IH]; simpl; [reflexivity|].
  rewrite forallb_app, IH. unfold reaction.
  destruct (mapped s); reflexivity.
Qed.

Lemma count_reactions (e : event) (ss : list string) :
  loop_event e = false -> count e (reactions ss) = 0.
Proof. intros He. apply loop_events_count; auto using reactions_loop_events. Qed.

Lemma emitted_app (a b : list string) : emitted (a ++ b) = emitted a ++ emitted b.
Proof. unfold emitted. apply flat_map_app. Qed.

Lemma mapped_not_exited (s : string) : mapped s <> Some StateExited.
Proof.
  unfold mapped.
  destruct (s =? "creating"); [discriminate|].
  destruct (s =? "created"); [discriminate|].
  destruct (s =? "running"); discriminate.
Qed.

Lemma emitted_not_exited (ss : list string) : ~ In StateExited (emitted ss).
Proof.
  induction ss as [|s ss IH]; simpl; [tauto|].
  intros H. apply in_app_or in H. destruct H as [H|H]; [|tauto].
  pose proof (mapped_not_exited s) as Hs.
  destruct (mapped s); simpl in H; [|tauto].
  destruct H as [H|[]]. congruence.
Qed.

Lemma emitted_mapped (ss : list string) (xs : list State) :
  Forall2 (fun s x => mapped s = Some x) ss xs -> emitted ss = xs.
Proof.
  induction 1 as [|s x ss xs Hs _ IH]; simpl; [reflexivity|].
  rewrite Hs, IH. reflexivity.
Qed.

(** ** The context *)

Lemma poll_live (c : Context) (n : nat) :
  live c (S n) -> poll c = (false, advance 1 c).
Proof.
  destruct c as [[|k]|]; simpl; intros H; try lia; try reflexivity.
  rewrite Nat.sub_0_r. reflexivity.
Qed.

Lemma live_advance (c : Context) (n m : nat) :
  live c (n + m) -> live (advance n c) m.
Proof. destruct c; simpl; lia. Qed.

Lemma live_le (c : Context) (n m : nat) : m <= n -> live c n -> live c m.
Proof. destruct c; simpl; lia. Qed.

Lemma advance_advance (c : Context) (n m : nat) :
  advance n (advance m c) = advance (m + n) c.
Proof. destruct c; simpl; [f_equal; lia|reflexivity]. Qed.

(** ** Values that fail to decode *)

Lemma object_error (members : list (string * json)) (v : statusInfo)
      (saved : option decodeError) :
  snd (object members v saved) =
  match saved with
  | Some e => Some e
  | None => if wrongShape (JObject members) then Some UnmarshalTypeError else None
  end.
Proof.
  revert v saved. induction members as [|[key item] members IH]; intros v saved.
  - destruct saved; reflexivity.
  - simpl. destruct (isStatusKey key); simpl.
    + destruct item; simpl; rewrite IH; destruct saved; reflexivity.
    + apply IH.
Qed.

(** [Decode] fails on a value exactly when it has the wrong shape, whatever
    the struct holds. *)
Lemma unmarshal_error (j : json) (v : statusInfo) :
  snd (unmarshal j v) = if wrongShape j then Some UnmarshalTypeError else None.
Proof.
  destruct j; try reflexivity.
  unfold unmarshal. rewrite object_error. reflexivity.
Qed.

Lemma decodeFails_Malformed (rest : list token) (t : ending) :
  decodeFails {| unread := Malformed :: rest; tail := t |}.
Proof. split; [reflexivity|]. intros v. do 3 eexists. reflexivity. Qed.

Lemma decodeFails_Truncated (rest : list token) :
  decodeFails {| unread := Truncated :: rest; tail := PeerClosed |}.
Proof. split; [reflexivity|]. intros v. do 3 eexists. reflexivity. Qed.

Lemma decodeFails_wrongShape (j : json) (rest : list token) (t : ending) :
  wrongShape j = true ->
  decodeFails {| unread := Value j :: rest; tail := t |}.
Proof.
  intros Hj. split; [reflexivity|]. intros v.
  pose proof (unmarshal_error j v) as He. rewrite Hj in He.
  unfold Decode. simpl.
  destruct (unmarshal j v) as [v' err]. simpl in He. subst err.
  do 3 eexists. reflexivity.
Qed.

Lemma unmarshal_decodeFails (j : json) (v v' : statusInfo) (e : decodeError)
      (rest : list token) (t : ending) :
  unmarshal j v = (v', Some e) ->
  decodeFails {| unread := Value j :: rest; tail := t |}.
Proof.
  intros Hj. apply decodeFails_wrongShape.
  pose proof (unmarshal_error j v) as He. rewrite Hj in He. simpl in He.
  destruct (wrongShape j); [reflexivity|discriminate].
Qed.

(** ** One iteration of the decoder loop *)


Lemma syncLoop_cancelled (fuel : nat) (dec : Decoder) (v : statusInfo)
      (tr : list event) :
  syncLoop (S fuel) dec v {| ctx := Some 0; trace := tr |} =
  Returned false {| ctx := Some 0; trace := tr ++ [Log LogSyncContextDone] |}.
Proof. reflexivity. Qed.

Lemma syncLoop_continue (fuel : nat) (j : json) (rest : list token)
      (t : ending) (v v' : statusInfo) (c : Context) (tr : list event) :
  live c 1 ->
  unmarshal j v = (v', None) ->
  Status v' <> "stopped" ->
  syncLoop (S fuel) {| unread := Value j :: rest; tail := t |} v
           {| ctx := c; trace := tr |} =
  syncLoop fuel {| unread := rest; tail := t |} v'
           {| ctx := advance 1 c; trace := tr ++ reaction (Status v') |}.
Proof.
  intros Hc Hj Hs. simpl. run. rewrite (poll_live c 0 Hc). simpl.
  unfold Decode. simpl. rewrite Hj.
  apply String.eqb_neq in Hs. unfold reaction, mapped.
  destruct (Status v' =? "creating"); simpl; [rewrite <- app_assoc; reflexivity|].
  destruct (Status v' =? "created"); simpl; [rewrite <- app_assoc; reflexivity|].
  destruct (Status v' =? "running"); simpl; [rewrite <- app_assoc; reflexivity|].
  rewrite Hs. simpl. rewrite <- ?app_assoc. reflexivity.
Qed.

Lemma syncLoop_stopped (fuel : nat) (j : json) (rest : list token)
      (t : ending) (v v' : statusInfo) (c : Context) (tr : list event) :
  live c 1 ->
  unmarshal j v = (v', None) ->
  Status v' = "stopped" ->
  syncLoop (S fuel) {| unread := Value j :: rest; tail := t |} v
           {| ctx := c; trace := tr |} =
  Returned true {| ctx := advance 1 c;
                   trace := tr ++ [Log LogGotData; Send StateExited;
                                   Log LogStopped] |}.
Proof.
  intros Hc Hj Hs. simpl. run. rewrite (poll_live c 0 Hc). simpl.
  unfold Decode. simpl. rewrite Hj, Hs. simpl.
  rewrite <- !app_assoc. reflexivity.
Qed.

Lemma syncLoop_decode_failed (fuel : nat) (dec : Decoder) (v : statusInfo)
      (c : Context) (tr : list event) :
  live c 1 ->
  decodeFails dec ->
  syncLoop (S fuel) dec v {| ctx := c; trace := tr |} =
  Returned true {| ctx := advance 1 c;
                   trace := tr ++ [Log LogGotData; Log LogDecodeFailed] |}.
Proof.
  intros Hc [HM Hfail]. destruct (Hfail v) as (dec' & v' & e & HD).
  simpl. run. rewrite (poll_live c 0 Hc). simpl.
  rewrite HM, HD. simpl. rewrite <- app_assoc. reflexivity.
Qed.

Lemma syncLoop_stalled (fuel : nat) (dec : Decoder) (v : statusInfo)
      (c : Context) (tr : list event) :
  live c 1 ->
  More dec = Some true ->
  Decode dec v = None ->
  syncLoop (S fuel) dec v {| ctx := c; trace := tr |} =
  Blocked {| ctx := advance 1 c; trace := tr ++ [Log LogGotData] |}.
Proof.
  intros Hc HM HD. simpl. run. rewrite (poll_live c 0 Hc). simpl.
  rewrite HM, HD. reflexivity.
Qed.

Lemma syncLoop_waits (fuel : nat) (dec : Decoder) (v : statusInfo)
      (c : Context) (tr : list event) :
  live c 1 ->
  More dec = None ->
  syncLoop (S fuel) dec v {| ctx := c; trace := tr |} =
  Blocked {| ctx := advance 1 c; trace := tr |}.
Proof.
  intros Hc HM. simpl. run. rewrite (poll_live c 0 Hc). simpl.
  rewrite HM. reflexivity.
Qed.

Lemma syncLoop_idle (fuel : nat) (v : statusInfo) (c : Context)
      (tr : list event) :
  live c 1 ->
  syncLoop (S fuel) {| unread := []; tail := PeerIdle |} v
           {| ctx := c; trace := tr |} =
  Blocked {| ctx := advance 1 c; trace := tr |}.
Proof. intros Hc. simpl. run. rewrite (poll_live c 0 Hc). reflexivity. Qed.

Lemma syncLoop_spin (fuel : nat) (dec : Decoder) (v : statusInfo)
      (c : Context) (tr : list event) :
  live c 1 ->
  More dec = Some false ->
  syncLoop (S fuel) dec v {| ctx := c; trace := tr |} =
  syncLoop fuel dec v {| ctx := advance 1 c; trace := tr |}.
Proof.
  intros Hc HM. simpl. run. rewrite (poll_live c 0 Hc). simpl.
  rewrite HM. reflexivity.
Qed.

(** ** The cases of a decoder run *)

Lemma context_cases (c : Context) : c = Some 0 \/ live c 1.
Proof. destruct c as [[|k]|]; simpl; [left; reflexivity|right; lia|right; exact I]. Qed.

(** Induction on a run of the decoder loop, one case per way through the
    loop body. *)
Lemma syncLoop_run_ind
      (P : nat -> Decoder -> statusInfo -> world -> result bool -> Prop) :
  (forall dec v w, P 0 dec v w (OutOfFuel w)) ->
  (forall fuel dec v tr,
      P (S fuel) dec v {| ctx := Some 0; trace := tr |}
        (Returned false {| ctx := Some 0;
                           trace := tr ++ [Log LogSyncContextDone] |})) ->
  (forall fuel dec v c tr,
      live c 1 ->
      More dec = None ->
      P (S fuel) dec v {| ctx := c; trace := tr |}
        (Blocked {| ctx := advance 1 c; trace := tr |})) ->
  (forall fuel dec v c tr,
      live c 1 ->
      More dec = Some false ->
      P fuel dec v {| ctx := advance 1 c; trace := tr |}
        (syncLoop fuel dec v {| ctx := advance 1 c; trace := tr |}) ->
      P (S fuel) dec v {| ctx := c; trace := tr |}
        (syncLoop fuel dec v {| ctx := advance 1 c; trace := tr |})) ->
  (forall fuel dec v c tr,
      live c 1 ->
      More dec = Some true ->
      Decode dec v = None ->
      P (S fuel) dec v {| ctx := c; trace := tr |}
        (Blocked {| ctx := advance 1 c; trace := tr ++ [Log LogGotData] |})) ->
  (forall fuel dec v c tr,
      live c 1 ->
      decodeFails dec ->
      P (S fuel) dec v {| ctx := c; trace := tr |}
        (Returned true {| ctx := advance 1 c;
                          trace := tr ++ [Log LogGotData; Log LogDecodeFailed] |})) ->
  (forall fuel j rest t v v' c tr,
      live c 1 ->
      unmarshal j v = (v', None) ->
      Status v' = "stopped" ->
      P (S fuel) {| unread := Value j :: rest; tail := t |} v
        {| ctx := c; trace := tr |}
        (Returned true {| ctx := advance 1 c;
                          trace := tr ++ [Log LogGotData; Send StateExited;
                                          Log LogStopped] |})) ->
  (forall fuel j rest t v v' c tr,
      live c 1 ->
      unmarshal j v = (v', None) ->
      Status v' <> "stopped" ->
      P fuel {| unread := rest; tail := t |} v'
        {| ctx := advance 1 c; trace := tr ++ reaction (Status v') |}
        (syncLoop fuel {| unread := rest; tail := t |} v'
                  {| ctx := advance 1 c; trace := tr ++ reaction (Status v') |}) ->
      P (S fuel) {| unread := Value j :: rest; tail := t |} v
        {| ctx := c; trace := tr |}
        (syncLoop fuel {| unread := rest; tail := t |} v'
                  {| ctx := advance 1 c; trace := tr ++ reaction (Status v') |})) ->
  forall fuel dec v w, P fuel dec v w (syncLoop fuel dec v w).
Proof.
  intros Hzero Hdone Hwait Hspin Hstall Hfail Hstopped Hcont.
  induction fuel as [|fuel IH]; intros dec v [c tr]; [apply Hzero|].
  destruct (context_cases c) as [Hc|Hc].
  { subst c. rewrite syncLoop_cancelled. apply Hdone. }
  assert (Hspins : More dec = Some false ->
                   P (S fuel) dec v {| ctx := c; trace := tr |}
                     (syncLoop (S fuel) dec v {| ctx := c; trace := tr |})).
  { intros HM. rewrite syncLoop_spin by assumption.
    apply Hspin; [assumption|assumption|apply IH]. }
  assert (Hwaits : More dec = None ->
                   P (S fuel) dec v {| ctx := c; trace := tr |}
                     (syncLoop (S fuel) dec v {| ctx := c; trace := tr |})).
  { intros HM. rewrite syncLoop_waits by assumption. apply Hwait; assumption. }
  assert (Hstalls : More dec = Some true -> Decode dec v = None ->
                    P (S fuel) dec v {| ctx := c; trace := tr |}
                      (syncLoop (S fuel) dec v {| ctx := c; trace := tr |})).
  { intros HM HD. rewrite syncLoop_stalled by assumption.
    apply Hstall; assumption. }
  assert (Hfails : decodeFails dec ->
                   P (S fuel) dec v {| ctx := c; trace := tr |}
                     (syncLoop (S fuel) dec v {| ctx := c; trace := tr |})).
  { intros HF. rewrite syncLoop_decode_failed by assumption.
    apply Hfail; assumption. }
  destruct dec as [[|tok rest] t].
  - destruct t; [apply Hspins|apply Hwaits|apply Hstalls]; reflexivity.
  - destruct tok as [j| | |].
    + destruct (unmarshal j v) as [v' [e|]] eqn:Hj.
      * apply Hfails. exact (unmarshal_decodeFails j v v' e rest t Hj).
      * destruct (String.eqb_spec (Status v') "stopped") as [Hs|Hs].
        -- rewrite (syncLoop_stopped fuel j rest t v v' c tr Hc Hj Hs).
           apply (Hstopped fuel j rest t v v' c tr Hc Hj Hs).
        -- rewrite (syncLoop_continue fuel j rest t v v' c tr Hc Hj Hs).
           apply (Hcont fuel j rest t v v' c tr Hc Hj Hs). apply IH.
    + apply Hfails, decodeFails_Malformed.
    + destruct t; [apply Hfails, decodeFails_Truncated| |];
        apply Hstalls; reflexivity.
    + apply Hspins. reflexivity.
Qed.

(** ** A run of messages that keep the connection open *)

Lemma advance_0 (c : Context) : advance 0 c = c.
Proof. destruct c; simpl; [rewrite Nat.sub_0_r|]; reflexivity. Qed.

Lemma statusAfter_cons (s : string) (ss : list string) (v v' : statusInfo) :
  Status v' = s -> statusAfter (s :: ss) v = statusAfter ss v'.
Proof. intros H. destruct v'. simpl in *. subst. reflexivity. Qed.

Lemma decoded_length (js : list json) :
  forall v ss, decoded v js = Some ss -> List.length ss = List.length js.
Proof.
  induction js as [|j js IH]; intros v ss H; simpl in H.
  - inversion H. reflexivity.
  - destruct (unmarshal j v) as [v' [e|]]; [discriminate|].
    destruct (decoded v' js) as [ss'|] eqn:Hd; [|discriminate].
    inversion H. simpl. f_equal. exact (IH v' ss' Hd).
Qed.

(** Messages of the shape [{"status": s}] decode to their statuses, whatever
    the variable held. *)
Lemma decoded_wire (ss : list string) (v : statusInfo) :
  decoded v (map wire ss) = Some ss.
Proof.
  revert v. induction ss as [|s ss IH]; intros v; [reflexivity|].
  simpl map. unfold decoded; fold decoded.
  change (unmarshal (wire s) v) with ({| Status := s |}, @None decodeError).
  cbv iota beta. rewrite IH. reflexivity.
Qed.

Lemma syncLoop_prefix (js : list json) :
  forall (ss : list string) (fuel : nat) (rest : list token) (t : ending)
         (v : statusInfo) (c : Context) (tr : list event),
    decoded v js = Some ss ->
    ~ In "stopped" ss ->
    live c (List.length js) ->
    syncLoop (List.length js + fuel)
             {| unread := map Value js ++ rest; tail := t |} v
             {| ctx := c; trace := tr |} =
    syncLoop fuel {| unread := rest; tail := t |} (statusAfter ss v)
             {| ctx := advance (List.length js) c;
                trace := tr ++ reactions ss |}.
Proof.
  induction js as [|j js IH]; intros ss fuel rest t v c tr Hdec Hstop Hc;
    simpl in Hdec.
  - inversion Hdec. simpl. rewrite advance_0, app_nil_r. reflexivity.
  - destruct (unmarshal j v) as [v' [e|]] eqn:Hj; [discriminate|].
    destruct (decoded v' js) as [ss'|] eqn:Hd; [|discriminate].
    inversion Hdec; subst ss; clear Hdec.
    simpl in Hstop. simpl List.length in *. simpl map. simpl app.
    change (S (List.length js) + fuel) with (S (List.length js + fuel)).
    rewrite (syncLoop_continue _ j _ t v v');
      [ | apply (live_le c (S (List.length js))); [lia|assumption]
        | exact Hj
        | intros E; apply Hstop; left; exact E ].
    rewrite (IH ss' fuel rest t v');
      [ | exact Hd | tauto
        | apply (live_advance c 1 (List.length js)); exact Hc ].
    rewrite advance_advance, (statusAfter_cons _ _ v v' eq_refl).
    simpl. rewrite <- app_assoc. reflexivity.
Qed.

Lemma syncLoop_closed_spins (fuel : nat) (v : statusInfo) (tr : list event) :
  syncLoop fuel {| unread := []; tail := PeerClosed |} v
           {| ctx := None; trace := tr |} =
  OutOfFuel {| ctx := None; trace := tr |}.
Proof.
  induction fuel as [|fuel IH]; [reflexivity|].
  rewrite syncLoop_spin; [exact IH|exact I|reflexivity].
Qed.

Lemma acceptLoop_accepted (fuel : nat) (conn : Decoder) (ln : Listener)
      (c : Context) (tr : list event) :
  live c 1 ->
  acceptLoop (S fuel) (Accepted conn :: ln) {| ctx := c; trace := tr |} =
  (shouldExit <- syncOnConn fuel conn ;;
   if shouldExit then ret ExitDecoder else acceptLoop fuel ln)
    {| ctx := advance 1 c; trace := tr ++ [Accept] |}.
Proof.
  intros Hc. simpl. unfold bind at 1. unfold ctxDone. simpl.
  rewrite (poll_live c 0 Hc). simpl. reflexivity.
Qed.

Lemma acceptLoop_cancelled (fuel : nat) (ln : Listener) (tr : list event) :
  acceptLoop (S fuel) ln {| ctx := Some 0; trace := tr |} =
  Returned ExitCancelled {| ctx := Some 0; trace := tr ++ [Log LogContextDone] |}.
Proof. reflexivity. Qed.

(** The decoder after a first run of messages, none of which decodes to
    ["stopped"]: what is left is the loop on the rest of the input. *)
Lemma syncOnConn_prefix (js : list json) (ss : list string) (fuel : nat)
      (rest : list token) (t : ending) (c : Context) (tr : list event) :
  decoded status0 js = Some ss ->
  ~ In "stopped" ss ->
  live c (List.length js) ->
  syncOnConn (List.length js + fuel)
             {| unread := map Value js ++ rest; tail := t |}
             {| ctx := c; trace := tr |} =
  defer CloseConn
        (syncLoop fuel {| unread := rest; tail := t |} (statusAfter ss status0))
        {| ctx := advance (List.length js) c; trace := tr ++ reactions ss |}.
Proof.
  intros Hjs Hstop Hc. unfold syncOnConn, defer. unfold bind at 1 3.
  fold status0. rewrite (syncLoop_prefix js ss fuel rest t status0 c tr Hjs Hstop Hc).
  reflexivity.
Qed.

(** The task while the decoder of the first connection runs. *)
Lemma background_accepted (fuel : nat) (conn : Decoder) (more : Listener)
      (c : Context) :
  live c 1 ->
  background (S fuel) (Accepted conn :: more) {| ctx := c; trace := [] |} =
  defer CloseChan
    (defer CloseListener
       (shouldExit <- syncOnConn fuel conn ;;
        if shouldExit then ret ExitDecoder else acceptLoop fuel more))
    {| ctx := advance 1 c; trace := [Accept] |}.
Proof.
  intros Hc. unfold background, defer. unfold bind at 1 2 5 6.
  rewrite acceptLoop_accepted by exact Hc. reflexivity.
Qed.

(** The task once the decoder of the first connection has returned true. *)
Lemma background_decoder_stops (fuel : nat) (conn : Decoder) (more : Listener)
      (c : Context) (w : world) :
  live c 1 ->
  syncOnConn fuel conn {| ctx := advance 1 c; trace := [Accept] |} =
    Returned true w ->
  background (S fuel) (Accepted conn :: more) {| ctx := c; trace := [] |} =
  Returned ExitDecoder
           {| ctx := ctx w; trace := trace w ++ [CloseListener; CloseChan] |}.
Proof.
  intros Hc Hsync. rewrite (background_accepted fuel conn more c Hc).
  unfold defer. unfold bind at 1 2 3. rewrite Hsync. run.
  rewrite <- app_assoc. reflexivity.
Qed.

(** The task while the decoder of the first connection has not returned. *)
Lemma background_decoder_pending (fuel : nat) (conn : Decoder) (more : Listener)
      (c : Context) :
  live c 1 ->
  pending (syncOnConn fuel conn {| ctx := advance 1 c; trace := [Accept] |}) ->
  pending (background (S fuel) (Accepted conn :: more) {| ctx := c; trace := [] |}) /\
  final (background (S fuel) (Accepted conn :: more) {| ctx := c; trace := [] |}) =
  final (syncOnConn fuel conn {| ctx := advance 1 c; trace := [Accept] |}).
Proof.
  intros Hc Hsync. rewrite (background_accepted fuel conn more c Hc).
  unfold defer, bind.
  destruct (syncOnConn fuel conn {| ctx := advance 1 c; trace := [Accept] |});
    simpl in *; [contradiction| |]; split; (exact I || reflexivity).
Qed.

Lemma mapped_not_stopped (ss : list string) (xs : list State) :
  Forall2 (fun s x => mapped s = Some x) ss xs -> ~ In "stopped" ss.
Proof.
  induction 1 as [|s x ss xs Hs _ IH]; simpl; [tauto|].
  intros [E|H]; [|tauto]. subst s. discriminate Hs.
Qed.

Lemma unrecognized_not_stopped (s : string) :
  recognized s = false -> s <> "stopped".
Proof. intros H E. subst s. discriminate H. Qed.

Lemma unrecognized_unmapped (s : string) : recognized s = false -> mapped s = None.
Proof.
  unfold recognized, mapped. intros H.
  destruct (s =? "creating"); [discriminate|].
  destruct (s =? "created"); [discriminate|].
  destruct (s =? "running"); [discriminate|reflexivity].
Qed.

(** While no terminal value, decode failure or cancellation comes, the
    decoder does not return: it is blocked reading from a peer that stays
    silent, or keeps polling a connection the peer closed. *)
Lemma syncOnConn_stays_open (js : list json) (ss : list string) (t : ending)
      (c : Context) (tr : list event) (fuel : nat) :
  decoded status0 js = Some ss ->
  ~ In "stopped" ss ->
  live c (List.length js + 1) ->
  (t = PeerClosed -> c = None) ->
  List.length js + 1 <= fuel ->
  pending (syncOnConn fuel {| unread := map Value js; tail := t |}
                      {| ctx := c; trace := tr |}) /\
  exists extra,
    trace (final (syncOnConn fuel {| unread := map Value js; tail := t |}
                             {| ctx := c; trace := tr |})) =
      tr ++ reactions ss ++ extra /\
    (extra = [] \/ extra = [Log LogGotData]).
Proof.
  intros Hjs Hstop Hc Ht Hfuel.
  replace fuel with (List.length js + S (fuel - List.length js - 1)) by lia.
  rewrite <- (app_nil_r (map Value js)).
  rewrite (syncOnConn_prefix js ss _ [] t c tr Hjs Hstop)
    by (apply (live_le c (List.length js + 1)); [lia|assumption]).
  assert (Hc' : live (advance (List.length js) c) 1)
    by (apply (live_advance c (List.length js) 1); exact Hc).
  unfold defer, bind. destruct t.
  - rewrite (Ht eq_refl). simpl advance. rewrite syncLoop_closed_spins.
    split; [exact I|]. exists []. rewrite app_nil_r. tauto.
  - rewrite syncLoop_idle by exact Hc'.
    split; [exact I|]. exists []. rewrite app_nil_r. tauto.
  - rewrite syncLoop_stalled by (exact Hc' || reflexivity).
    split; [exact I|]. exists [Log LogGotData]. simpl.
    rewrite <- app_assoc. tauto.
Qed.

Lemma session_stays_open (js : list json) (ss : list string) (t : ending)
      (more : Listener) (c : Context) (fuel : nat) :
  decoded status0 js = Some ss ->
  ~ In "stopped" ss ->
  live c (List.length js + 2) ->
  (t = PeerClosed -> c = None) ->
  List.length js + 2 <= fuel ->
  pending (background fuel
                      (Accepted {| unread := map Value js; tail := t |} :: more)
                      {| ctx := c; trace := [] |}) /\
  exists extra,
    trace (final (background fuel
                             (Accepted {| unread := map Value js; tail := t |} :: more)
                             {| ctx := c; trace := [] |})) =
      Accept :: reactions ss ++ extra /\
    (extra = [] \/ extra = [Log LogGotData]).
Proof.
  intros Hjs Hstop Hc Ht Hfuel.
  destruct fuel as [|fuel]; [lia|].
  assert (Hc1 : live c 1) by (apply (live_le c (List.length js + 2)); [lia|assumption]).
  assert (Hopen :
            pending (syncOnConn fuel {| unread := map Value js; tail := t |}
                                {| ctx := advance 1 c; trace := [Accept] |}) /\
            exists extra,
              trace (final (syncOnConn fuel {| unread := map Value js; tail := t |}
                                       {| ctx := advance 1 c; trace := [Accept] |})) =
                [Accept] ++ reactions ss ++ extra /\
              (extra = [] \/ extra = [Log LogGotData])).
  { apply syncOnConn_stays_open; try assumption; try lia.
    - apply (live_advance c 1 (List.length js + 1)).
      replace (1 + (List.length js + 1)) with (List.length js + 2) by lia.
      exact Hc.
    - intros E. rewrite (Ht E). reflexivity. }
  destruct Hopen as [Hpend Htr].
  destruct (background_decoder_pending fuel _ more c Hc1 Hpend) as [Hp Hf].
  split; [exact Hp|]. rewrite Hf. exact Htr.
Qed.

(** What the trace of such a session shows. *)
Lemma open_trace_facts (ss : list string) (extra tr : list event) :
  tr = Accept :: reactions ss ++ extra ->
  extra = [] \/ extra = [Log LogGotData] ->
  sent tr = emitted ss /\
  count CloseConn tr = 0 /\
  count CloseChan tr = 0 /\
  (forall e, In e (reactions ss) -> In e tr).
Proof.
  intros Htr Hextra. subst tr.
  change (Accept :: reactions ss ++ extra) with ([Accept] ++ reactions ss ++ extra).
  rewrite !sent_app, !count_app, sent_reactions, !count_reactions by reflexivity.
  assert (Hq : sent extra = [] /\ count CloseConn extra = 0 /\
               count CloseChan extra = 0)
    by (destruct Hextra; subst extra; repeat split).
  destruct Hq as (Hs & H1 & H2). rewrite Hs, H1, H2, app_nil_r.
  repeat split. intros e He. apply in_or_app. right. apply in_or_app. left. exact He.
Qed.

(** ** Claims on messages *)

(** C1.  A connection carries messages that decode to statuses among
    ["creating"], ["created"], ["running"] ([xs] are the states the table
    maps them to).  As long as the context is not cancelled, the task goes
    on, the states sent on the channel are exactly [xs], in order and one
    per message, and the channel is not closed. *)
Theorem C1_nonterminal_messages_emitted_in_order
        (js : list json) (ss : list string) (xs : list State) (t : ending)
        (more : Listener) (c : Context) (netListen : string -> listenResult)
        (socket : string) (fuel : nat) :
  decoded status0 js = Some ss ->
  Forall2 (fun s x => mapped s = Some x) ss xs ->
  netListen socket =
    Listening (Accepted {| unread := map Value js; tail := t |} :: more) ->
  live c (List.length js + 2) ->
  (t = PeerClosed -> c = None) ->
  List.length js + 2 <= fuel ->
  exists r,
    ObserveState fuel netListen c socket = (Some r, None) /\
    pending r /\
    sent (trace (final r)) = xs /\
    List.length xs = List.length js /\
    count CloseChan (trace (final r)) = 0.
Proof.
  intros Hjs Hxs Hnet Hc Ht Hfuel.
  pose proof (mapped_not_stopped ss xs Hxs) as Hstop.
  destruct (session_stays_open js ss t more c fuel Hjs Hstop Hc Ht Hfuel)
    as [Hpend (extra & Htr & Hextra)].
  destruct (open_trace_facts ss extra _ Htr Hextra) as (Hsent & _ & Hchan & _).
  unfold ObserveState. rewrite Hnet.
  eexists. split; [reflexivity|]. split; [exact Hpend|].
  split; [|split].
  - rewrite Hsent. apply emitted_mapped, Hxs.
  - rewrite <- (decoded_length js _ _ Hjs). symmetry. exact (Forall2_length Hxs).
  - exact Hchan.
Qed.

Lemma C1_witness :
  exists r,
    ObserveState 4
      (fun _ => Listening [Accepted {| unread := map Value [wire "creating"; wire "running"];
                                       tail := PeerIdle |}])
      (Some 4) "/run/sync.sock" = (Some r, None) /\
    pending r /\
    sent (trace (final r)) = [StateCreating; StateRunning] /\
    List.length [StateCreating; StateRunning] =
      List.length [wire "creating"; wire "running"] /\
    count CloseChan (trace (final r)) = 0.
Proof.
  apply (C1_nonterminal_messages_emitted_in_order
           [wire "creating"; wire "running"] ["creating"; "running"]
           [StateCreating; StateRunning] PeerIdle [] (Some 4)
           (fun _ => Listening [Accepted {| unread := map Value [wire "creating"; wire "running"];
                                            tail := PeerIdle |}])
           "/run/sync.sock" 4).
  - reflexivity.
  - repeat constructor.
  - reflexivity.
  - simpl. lia.
  - discriminate.
  - simpl. lia.
Defined.

(** C7.  A message after which the status is none of the four known ones
    makes the loop log it and go on to the next iteration with the rest of
    the input: nothing is sent and the decoder does not return.  In a
    session, such a message between other messages changes nothing else:
    the task goes on, the states sent are those of the messages before and
    after it, and neither the connection nor the channel is closed. *)
Theorem C7_unrecognized_status_is_skipped :
  (forall (fuel : nat) (j : json) (rest : list token) (t : ending)
          (v v' : statusInfo) (c : Context) (tr : list event),
      live c 1 ->
      unmarshal j v = (v', None) ->
      recognized (Status v') = false ->
      syncLoop (S fuel) {| unread := Value j :: rest; tail := t |} v
               {| ctx := c; trace := tr |} =
      syncLoop fuel {| unread := rest; tail := t |} v'
               {| ctx := advance 1 c;
                  trace := tr ++ [Log LogGotData; Log (LogUnknown (Status v'))] |}) /\
  (forall (js : list json) (pre post : list string) (u : string) (t : ending)
          (more : Listener) (c : Context) (fuel : nat),
      decoded status0 js = Some (pre ++ u :: post) ->
      recognized u = false ->
      ~ In "stopped" (pre ++ post) ->
      live c (List.length js + 2) ->
      (t = PeerClosed -> c = None) ->
      List.length js + 2 <= fuel ->
      exists r,
        r = background fuel
                       (Accepted {| unread := map Value js; tail := t |} :: more)
                       {| ctx := c; trace := [] |} /\
        pending r /\
        sent (trace (final r)) = emitted pre ++ emitted post /\
        In (Log (LogUnknown u)) (trace (final r)) /\
        count CloseConn (trace (final r)) = 0 /\
        count CloseChan (trace (final r)) = 0).
Proof.
  split.
  - intros fuel j rest t v v' c tr Hc Hj Hu.
    rewrite (syncLoop_continue fuel j rest t v v' c tr Hc Hj
               (unrecognized_not_stopped _ Hu)).
    unfold reaction. rewrite (unrecognized_unmapped _ Hu). reflexivity.
  - intros js pre post u t more c fuel Hjs Hu Hstop Hc Ht Hfuel.
    assert (Hstop' : ~ In "stopped" (pre ++ u :: post)).
    { intros H. apply in_app_or in H. simpl in H.
      destruct H as [H|[H|H]].
      - apply Hstop, in_or_app. tauto.
      - exact (unrecognized_not_stopped u Hu H).
      - apply Hstop, in_or_app. tauto. }
    destruct (session_stays_open js _ t more c fuel Hjs Hstop' Hc Ht Hfuel)
      as [Hpend (extra & Htr & Hextra)].
    destruct (open_trace_facts _ extra _ Htr Hextra)
      as (Hsent & Hconn & Hchan & Hin).
    eexists. split; [reflexivity|]. split; [exact Hpend|].
    repeat split; try assumption.
    + rewrite Hsent, emitted_app. simpl.
      rewrite (unrecognized_unmapped _ Hu). reflexivity.
    + apply Hin. unfold reactions.
      apply in_flat_map. exists u. split; [apply in_or_app; simpl; tauto|].
      unfold reaction. rewrite (unrecognized_unmapped _ Hu). simpl. tauto.
Qed.

(** The scenario of the specification: ["weird"] then ["created"]. *)
Lemma C7_witness :
  exists r,
    r = background 4
                   [Accepted {| unread := map Value [wire "weird"; wire "created"];
                                tail := PeerIdle |}]
                   {| ctx := None; trace := [] |} /\
    pending r /\
    sent (trace (final r)) = emitted [] ++ emitted ["created"] /\
    In (Log (LogUnknown "weird")) (trace (final r)) /\
    count CloseConn (trace (final r)) = 0 /\
    count CloseChan (trace (final r)) = 0.
Proof.
  apply (proj2 C7_unrecognized_status_is_skipped
               [wire "weird"; wire "created"] [] ["created"] "weird"
               PeerIdle [] None 4).
  - reflexivity.
  - reflexivity.
  - simpl. intros [H|[]]. discriminate H.
  - exact I.
  - discriminate.
  - simpl. lia.
Defined.

(** ** The terminal value *)

Lemma syncOnConn_stopped (js : list json) (ss : list string) (j : json)
      (v' : statusInfo) (rest : list token) (t : ending) (c : Context)
      (tr : list event) (fuel : nat) :
  decoded status0 js = Some ss ->
  ~ In "stopped" ss ->
  unmarshal j (statusAfter ss status0) = (v', None) ->
  Status v' = "stopped" ->
  live c (S (List.length js)) ->
  syncOnConn (List.length js + S fuel)
             {| unread := map Value js ++ Value j :: rest; tail := t |}
             {| ctx := c; trace := tr |} =
  Returned true
    {| ctx := advance (S (List.length js)) c;
       trace := tr ++ reactions ss ++
                [Log LogGotData; Send StateExited; Log LogStopped; CloseConn] |}.
Proof.
  intros Hjs Hstop Hj Hv' Hc.
  rewrite (syncOnConn_prefix js ss _ _ t c tr Hjs Hstop)
    by (apply (live_le c (S (List.length js))); [lia|assumption]).
  unfold defer. unfold bind at 1.
  rewrite (syncLoop_stopped fuel j rest t _ v');
    [ | apply (live_advance c (List.length js) 1);
        replace (List.length js + 1) with (S (List.length js)) by lia; exact Hc
      | exact Hj
      | exact Hv' ].
  run. rewrite advance_advance.
  replace (List.length js + 1) with (S (List.length js)) by lia.
  rewrite <- !app_assoc. reflexivity.
Qed.

(** C2.  When a message is decoded after which the status is ["stopped"]
    (the messages before it having kept the connection open), the decoder
    sends [StateExited] and returns true; the task then closes the channel.
    [StateExited] is the last value sent and is sent once; the result
    mentions neither the input written after that message nor later
    connections. *)
Theorem C2_stopped_sends_final_exited
        (js : list json) (ss : list string) (j : json) (v' : statusInfo)
        (rest : list token) (t : ending) (more : Listener) (c : Context)
        (netListen : string -> listenResult) (socket : string) (fuel : nat) :
  decoded status0 js = Some ss ->
  ~ In "stopped" ss ->
  unmarshal j (statusAfter ss status0) = (v', None) ->
  Status v' = "stopped" ->
  netListen socket =
    Listening (Accepted {| unread := map Value js ++ Value j :: rest;
                           tail := t |} :: more) ->
  live c (List.length js + 2) ->
  List.length js + 2 <= fuel ->
  (exists w,
      syncOnConn (fuel - 1)
                 {| unread := map Value js ++ Value j :: rest; tail := t |}
                 {| ctx := advance 1 c; trace := [Accept] |} = Returned true w) /\
  exists w,
    ObserveState fuel netListen c socket = (Some (Returned ExitDecoder w), None) /\
    trace w = Accept :: reactions ss ++
              [Log LogGotData; Send StateExited; Log LogStopped;
               CloseConn; CloseListener; CloseChan] /\
    sent (trace w) = emitted ss ++ [StateExited] /\
    ~ In StateExited (emitted ss).
Proof.
  intros Hjs Hstop Hj Hv' Hnet Hc Hfuel.
  destruct fuel as [|fuel]; [lia|].
  replace (S fuel - 1) with fuel by lia.
  assert (Hc1 : live (advance 1 c) (S (List.length js))).
  { apply (live_advance c 1 (S (List.length js))).
    replace (1 + S (List.length js)) with (List.length js + 2) by lia. exact Hc. }
  pose proof (syncOnConn_stopped js ss j v' rest t (advance 1 c) [Accept]
                (fuel - List.length js - 1) Hjs Hstop Hj Hv' Hc1) as Hsync.
  replace (List.length js + S (fuel - List.length js - 1)) with fuel
    in Hsync by lia.
  split; [eexists; exact Hsync|].
  unfold ObserveState. rewrite Hnet.
  rewrite (background_decoder_stops fuel _ more c _
             (live_le c (List.length js + 2) 1 ltac:(lia) Hc) Hsync).
  eexists. split; [reflexivity|]. simpl.
  rewrite <- !app_assoc. simpl. split; [reflexivity|].
  split; [|apply emitted_not_exited].
  rewrite sent_app, sent_reactions. reflexivity.
Qed.

(** The scenario of the specification, with input after ["stopped"]. *)
Lemma C2_witness :
  (exists w,
      syncOnConn (4 - 1)
                 {| unread := map Value [wire "creating"; wire "running"] ++
                              Value (wire "stopped") :: [Value (wire "created")];
                    tail := PeerIdle |}
                 {| ctx := advance 1 None; trace := [Accept] |} = Returned true w) /\
  exists w,
    ObserveState 4
      (fun _ => Listening
                  [Accepted {| unread := map Value [wire "creating"; wire "running"] ++
                                         Value (wire "stopped") :: [Value (wire "created")];
                               tail := PeerIdle |}])
      None "/run/sync.sock" = (Some (Returned ExitDecoder w), None) /\
    trace w = Accept :: reactions ["creating"; "running"] ++
              [Log LogGotData; Send StateExited; Log LogStopped;
               CloseConn; CloseListener; CloseChan] /\
    sent (trace w) = emitted ["creating"; "running"] ++ [StateExited] /\
    ~ In StateExited (emitted ["creating"; "running"]).
Proof.
  apply (C2_stopped_sends_final_exited
           [wire "creating"; wire "running"] ["creating"; "running"]
           (wire "stopped") {| Status := "stopped" |}
           [Value (wire "created")] PeerIdle [] None
           (fun _ => Listening
                       [Accepted {| unread := map Value [wire "creating"; wire "running"] ++
                                              Value (wire "stopped") :: [Value (wire "created")];
                                    tail := PeerIdle |}])
           "/run/sync.sock" 4).
  - reflexivity.
  - simpl. intros [H|[H|[]]]; discriminate H.
  - reflexivity.
  - reflexivity.
  - reflexivity.
  - exact I.
  - simpl. lia.
Defined.

(** ** Decode errors *)

Lemma syncOnConn_decode_failed (js : list json) (ss : list string)
      (tok : token) (rest : list token) (t : ending) (c : Context)
      (tr : list event) (fuel : nat) :
  decoded status0 js = Some ss ->
  ~ In "stopped" ss ->
  decodeFails {| unread := tok :: rest; tail := t |} ->
  live c (S (List.length js)) ->
  syncOnConn (List.length js + S fuel)
             {| unread := map Value js ++ tok :: rest; tail := t |}
             {| ctx := c; trace := tr |} =
  Returned true
    {| ctx := advance (S (List.length js)) c;
       trace := tr ++ reactions ss ++
                [Log LogGotData; Log LogDecodeFailed; CloseConn] |}.
Proof.
  intros Hjs Hstop Htok Hc.
  rewrite (syncOnConn_prefix js ss _ _ t c tr Hjs Hstop)
    by (apply (live_le c (S (List.length js))); [lia|assumption]).
  unfold defer. unfold bind at 1.
  rewrite (syncLoop_decode_failed fuel _ _ _ _);
    [ | apply (live_advance c (List.length js) 1);
        replace (List.length js + 1) with (S (List.length js)) by lia; exact Hc
      | exact Htok ].
  run. rewrite advance_advance.
  replace (List.length js + 1) with (S (List.length js)) by lia.
  rewrite <- !app_assoc. reflexivity.
Qed.

(** X11.  When the loop reaches [Decode] on a message and [Decode] returns
    an error (after any number of messages that were decoded and kept the
    connection open), nothing is sent for that message, the decoder returns
    true, and the task closes the connection, the listener and the
    channel. *)
Theorem X11_decode_error_ends_session
        (js : list json) (ss : list string) (tok : token) (rest : list token)
        (t : ending) (more : Listener) (c : Context)
        (netListen : string -> listenResult) (socket : string) (fuel : nat) :
  decoded status0 js = Some ss ->
  ~ In "stopped" ss ->
  decodeFails {| unread := tok :: rest; tail := t |} ->
  netListen socket =
    Listening (Accepted {| unread := map Value js ++ tok :: rest;
                           tail := t |} :: more) ->
  live c (List.length js + 2) ->
  List.length js + 2 <= fuel ->
  (exists w,
      syncOnConn (fuel - 1)
                 {| unread := map Value js ++ tok :: rest; tail := t |}
                 {| ctx := advance 1 c; trace := [Accept] |} = Returned true w) /\
  exists w,
    ObserveState fuel netListen c socket = (Some (Returned ExitDecoder w), None) /\
    trace w = Accept :: reactions ss ++
              [Log LogGotData; Log LogDecodeFailed;
               CloseConn; CloseListener; CloseChan] /\
    sent (trace w) = emitted ss.
Proof.
  intros Hjs Hstop Htok Hnet Hc Hfuel.
  destruct fuel as [|fuel]; [lia|].
  replace (S fuel - 1) with fuel by lia.
  assert (Hc1 : live (advance 1 c) (S (List.length js))).
  { apply (live_advance c 1 (S (List.length js))).
    replace (1 + S (List.length js)) with (List.length js + 2) by lia. exact Hc. }
  pose proof (syncOnConn_decode_failed js ss tok rest t (advance 1 c) [Accept]
                (fuel - List.length js - 1) Hjs Hstop Htok Hc1) as Hsync.
  replace (List.length js + S (fuel - List.length js - 1)) with fuel
    in Hsync by lia.
  split; [eexists; exact Hsync|].
  unfold ObserveState. rewrite Hnet.
  rewrite (background_decoder_stops fuel _ more c _
             (live_le c (List.length js + 2) 1 ltac:(lia) Hc) Hsync).
  eexists. split; [reflexivity|]. simpl.
  rewrite <- !app_assoc. simpl. split; [reflexivity|].
  rewrite sent_app, sent_reactions. simpl. apply app_nil_r.
Qed.

Lemma X11_witness :
  (exists w,
      syncOnConn (5 - 1)
                 {| unread := map Value [wire "creating"; wire "created"] ++
                              Malformed :: [Value (wire "running")];
                    tail := PeerIdle |}
                 {| ctx := advance 1 None; trace := [Accept] |} = Returned true w) /\
  exists w,
    ObserveState 5
      (fun _ => Listening
                  [Accepted {| unread := map Value [wire "creating"; wire "created"] ++
                                         Malformed :: [Value (wire "running")];
                               tail := PeerIdle |}])
      None "/run/sync.sock" = (Some (Returned ExitDecoder w), None) /\
    trace w = Accept :: reactions ["creating"; "created"] ++
              [Log LogGotData; Log LogDecodeFailed;
               CloseConn; CloseListener; CloseChan] /\
    sent (trace w) = emitted ["creating"; "created"].
Proof.
  apply (X11_decode_error_ends_session
           [wire "creating"; wire "created"] ["creating"; "created"]
           Malformed [Value (wire "running")] PeerIdle [] None
           (fun _ => Listening
                       [Accepted {| unread := map Value [wire "creating"; wire "created"] ++
                                              Malformed :: [Value (wire "running")];
                                    tail := PeerIdle |}])
           "/run/sync.sock" 5).
  - reflexivity.
  - simpl. intros [H|[H|[]]]; discriminate H.
  - split; [reflexivity|]. intros v. do 3 eexists. reflexivity.
  - reflexivity.
  - exact I.
  - simpl. lia.
Defined.

(** ** Cancellation *)

Lemma syncOnConn_cancelled (js : list json) (ss : list string)
      (rest : list token) (t : ending) (tr : list event) (fuel : nat) :
  decoded status0 js = Some ss ->
  ~ In "stopped" ss ->
  syncOnConn (List.length js + S fuel)
             {| unread := map Value js ++ rest; tail := t |}
             {| ctx := Some (List.length js); trace := tr |} =
  Returned false
    {| ctx := Some 0;
       trace := tr ++ reactions ss ++ [Log LogSyncContextDone; CloseConn] |}.
Proof.
  intros Hjs Hstop.
  rewrite (syncOnConn_prefix js ss _ _ t _ tr Hjs Hstop) by (simpl; lia).
  unfold defer. unfold bind at 1.
  simpl advance. rewrite Nat.sub_diag, syncLoop_cancelled. run.
  rewrite <- !app_assoc. reflexivity.
Qed.

(** C3, as the code has it.  When the decoder finds the context done at the
    top of an iteration it sends nothing more and returns false, and the
    connection is closed.  The accept loop, which goes on after a false,
    finds the context done at its own next check and exits there, without
    another accept; the channel is then closed. *)
Theorem C3_cancellation_returns_false :
  (forall (fuel : nat) (dec : Decoder) (v : statusInfo) (tr : list event),
      syncLoop (S fuel) dec v {| ctx := Some 0; trace := tr |} =
      Returned false {| ctx := Some 0; trace := tr ++ [Log LogSyncContextDone] |}) /\
  (forall (js : list json) (ss : list string) (rest : list token) (t : ending)
          (more : Listener) (netListen : string -> listenResult)
          (socket : string) (fuel : nat),
      decoded status0 js = Some ss ->
      ~ In "stopped" ss ->
      netListen socket =
        Listening (Accepted {| unread := map Value js ++ rest; tail := t |} :: more) ->
      List.length js + 2 <= fuel ->
      syncOnConn (fuel - 1) {| unread := map Value js ++ rest; tail := t |}
                 {| ctx := Some (List.length js); trace := [Accept] |} =
        Returned false
          {| ctx := Some 0;
             trace := Accept :: reactions ss ++
                      [Log LogSyncContextDone; CloseConn] |} /\
      exists w,
        ObserveState fuel netListen (Some (S (List.length js))) socket =
          (Some (Returned ExitCancelled w), None) /\
        trace w = Accept :: reactions ss ++
                  [Log LogSyncContextDone; CloseConn;
                   Log LogContextDone; CloseListener; CloseChan] /\
        sent (trace w) = emitted ss /\
        count Accept (trace w) = 1).
Proof.
  split; [exact syncLoop_cancelled|].
  intros js ss rest t more netListen socket fuel Hjs Hstop Hnet Hfuel.
  destruct fuel as [|fuel]; [lia|].
  replace (S fuel - 1) with fuel by lia.
  pose proof (syncOnConn_cancelled js ss rest t [Accept]
                (fuel - List.length js - 1) Hjs Hstop) as Hsync.
  replace (List.length js + S (fuel - List.length js - 1)) with fuel
    in Hsync by lia.
  split; [exact Hsync|].
  unfold ObserveState. rewrite Hnet.
  rewrite background_accepted by (simpl; lia).
  unfold defer. unfold bind at 1 2 3.
  simpl advance. rewrite Nat.sub_0_r, Hsync.
  destruct fuel as [|fuel]; [lia|].
  rewrite acceptLoop_cancelled. run.
  eexists. split; [reflexivity|]. simpl.
  rewrite <- !app_assoc. simpl. split; [reflexivity|].
  split.
  - rewrite sent_app, sent_reactions. simpl. apply app_nil_r.
  - change (Accept :: reactions ss ++ ?l) with ([Accept] ++ reactions ss ++ l).
    rewrite !count_app, count_reactions by reflexivity. reflexivity.
Qed.

Lemma C3_witness :
  syncOnConn (4 - 1)
             {| unread := map Value [wire "creating"] ++ [Value (wire "created")];
                tail := PeerIdle |}
             {| ctx := Some (List.length [wire "creating"]); trace := [Accept] |} =
    Returned false
      {| ctx := Some 0;
         trace := Accept :: reactions ["creating"] ++
                  [Log LogSyncContextDone; CloseConn] |} /\
  exists w,
    ObserveState 4
      (fun _ => Listening
                  [Accepted {| unread := map Value [wire "creating"] ++
                                         [Value (wire "created")];
                               tail := PeerIdle |};
                   Accepted {| unread := []; tail := PeerIdle |}])
      (Some (S (List.length [wire "creating"]))) "/run/sync.sock" =
      (Some (Returned ExitCancelled w), None) /\
    trace w = Accept :: reactions ["creating"] ++
              [Log LogSyncContextDone; CloseConn;
               Log LogContextDone; CloseListener; CloseChan] /\
    sent (trace w) = emitted ["creating"] /\
    count Accept (trace w) = 1.
Proof.
  apply (proj2 C3_cancellation_returns_false
               [wire "creating"] ["creating"] [Value (wire "created")] PeerIdle
               [Accepted {| unread := []; tail := PeerIdle |}]
               (fun _ => Listening
                           [Accepted {| unread := map Value [wire "creating"] ++
                                                  [Value (wire "created")];
                                        tail := PeerIdle |};
                            Accepted {| unread := []; tail := PeerIdle |}])
               "/run/sync.sock" 4).
  - reflexivity.
  - simpl. intros [H|[]]. discriminate H.
  - reflexivity.
  - simpl. lia.
Defined.

(** C3 as stated fails: the context is done when the decoder comes to its
    second iteration, and the decoder returns false, not true. *)
Lemma C3_counterexample :
  syncOnConn 3 {| unread := [Value (wire "creating"); Value (wire "created")];
                  tail := PeerIdle |}
             {| ctx := Some 1; trace := [] |} =
    Returned false
      {| ctx := Some 0;
         trace := [Log LogGotData; Send StateCreating;
                   Log LogSyncContextDone; CloseConn] |} /\
  ~ exists w,
      syncOnConn 3 {| unread := [Value (wire "creating"); Value (wire "created")];
                      tail := PeerIdle |}
                 {| ctx := Some 1; trace := [] |} = Returned true w.
Proof.
  split; [reflexivity|]. intros [w H]. discriminate H.
Qed.

(** ** Polling for ever *)

Lemma syncLoop_polls_for_ever (fuel : nat) (dec : Decoder) (v : statusInfo)
      (tr : list event) :
  More dec = Some false ->
  syncLoop fuel dec v {| ctx := None; trace := tr |} =
  OutOfFuel {| ctx := None; trace := tr |}.
Proof.
  intros HM. induction fuel as [|fuel IH]; [reflexivity|].
  rewrite syncLoop_spin; [exact IH|exact I|exact HM].
Qed.

(** With a context that is never cancelled, once the messages before are
    decoded, input on which [More] answers false keeps the loop turning:
    whatever the fuel, the loop has not returned. *)
Lemma syncLoop_never_returns (fuel : nat) :
  forall (js : list json) (ss : list string) (rest : list token) (t : ending)
         (v : statusInfo) (tr : list event),
    decoded v js = Some ss ->
    ~ In "stopped" ss ->
    More {| unread := rest; tail := t |} = Some false ->
    exists es,
      syncLoop fuel {| unread := map Value js ++ rest; tail := t |} v
               {| ctx := None; trace := tr |} =
      OutOfFuel {| ctx := None; trace := tr ++ es |} /\
      forallb loop_event es = true.
Proof.
  induction fuel as [|fuel IH]; intros js ss rest t v tr Hjs Hstop HM.
  - exists []. rewrite app_nil_r. split; reflexivity.
  - destruct js as [|j js]; simpl in Hjs.
    + exists []. rewrite app_nil_r. split; [|reflexivity].
      apply syncLoop_polls_for_ever, HM.
    + destruct (unmarshal j v) as [v' [e|]] eqn:Hj; [discriminate|].
      destruct (decoded v' js) as [ss'|] eqn:Hd; [|discriminate].
      inversion Hjs; subst ss; clear Hjs. simpl in Hstop. simpl map. simpl app.
      rewrite (syncLoop_continue fuel j _ t v v');
        [ | exact I | exact Hj | intros E; apply Hstop; left; exact E ].
      destruct (IH js ss' rest t v' (tr ++ reaction (Status v')) Hd)
        as [es [Hrun Hes]]; [tauto|exact HM|].
      exists (reaction (Status v') ++ es). simpl advance.
      rewrite Hrun, <- app_assoc.
      split; [reflexivity|]. rewrite forallb_app, Hes.
      unfold reaction. destruct (mapped (Status v')); reflexivity.
Qed.

(** The task on a first connection whose decoder polls for ever. *)
Lemma background_never_returns (fuel : nat) (js : list json) (ss : list string)
      (rest : list token) (t : ending) (more : Listener) :
  decoded status0 js = Some ss ->
  ~ In "stopped" ss ->
  More {| unread := rest; tail := t |} = Some false ->
  exists w,
    background fuel
               (Accepted {| unread := map Value js ++ rest; tail := t |} :: more)
               {| ctx := None; trace := [] |} = OutOfFuel w /\
    count CloseConn (trace w) = 0 /\
    count CloseChan (trace w) = 0.
Proof.
  intros Hjs Hstop HM. destruct fuel as [|fuel].
  - eexists. split; [reflexivity|]. split; reflexivity.
  - rewrite background_accepted by exact I.
    unfold syncOnConn, defer. unfold bind at 1 2 3 4.
    destruct (syncLoop_never_returns fuel js ss rest t status0 [Accept]
                Hjs Hstop HM) as [es [Hrun Hes]].
    simpl advance. fold status0. rewrite Hrun.
    eexists. split; [reflexivity|]. simpl trace.
    change (Accept :: es) with ([Accept] ++ es).
    rewrite !count_app, !(loop_events_count _ es) by (reflexivity || exact Hes).
    split; reflexivity.
Qed.

(** C4, on the code.  The peer writes messages without a terminal value and
    closes the connection; the context is never cancelled.  Whatever the
    fuel, the task has not returned: [More] keeps answering false, the loop
    keeps turning, and neither the connection nor the channel is closed. *)
Theorem C4_closed_peer_never_returns
        (js : list json) (ss : list string) (more : Listener)
        (netListen : string -> listenResult) (socket : string) (fuel : nat) :
  decoded status0 js = Some ss ->
  ~ In "stopped" ss ->
  netListen socket =
    Listening (Accepted {| unread := map Value js; tail := PeerClosed |} :: more) ->
  exists w,
    ObserveState fuel netListen None socket = (Some (OutOfFuel w), None) /\
    count CloseConn (trace w) = 0 /\
    count CloseChan (trace w) = 0.
Proof.
  intros Hjs Hstop Hnet. unfold ObserveState. rewrite Hnet.
  rewrite <- (app_nil_r (map Value js)).
  destruct (background_never_returns fuel js ss [] PeerClosed more
              Hjs Hstop eq_refl) as (w & Hrun & Hconn & Hchan).
  rewrite Hrun. exists w. repeat split; assumption.
Qed.

Lemma C4_witness :
  exists w,
    ObserveState 1000
      (fun _ => Listening [Accepted {| unread := map Value [wire "created"];
                                       tail := PeerClosed |}])
      None "/run/sync.sock" = (Some (OutOfFuel w), None) /\
    count CloseConn (trace w) = 0 /\
    count CloseChan (trace w) = 0.
Proof.
  apply (C4_closed_peer_never_returns
           [wire "created"] ["created"] []
           (fun _ => Listening [Accepted {| unread := map Value [wire "created"];
                                            tail := PeerClosed |}])
           "/run/sync.sock" 1000).
  - reflexivity.
  - simpl. intros [H|[]]. discriminate H.
  - reflexivity.
Defined.

(** C6, on the code.  A malformed payload that begins with a closing
    brace or bracket never gets to [Decode]: [More] answers false on it
    without consuming it, so with a context that is never cancelled the
    loop keeps turning.  Whatever the fuel, and whatever was decoded before
    or is written after, the task has not returned, and neither the
    connection nor the channel is closed. *)
Theorem C6_stray_delimiter_never_returns
        (js : list json) (ss : list string) (rest : list token) (t : ending)
        (more : Listener) (netListen : string -> listenResult)
        (socket : string) (fuel : nat) :
  decoded status0 js = Some ss ->
  ~ In "stopped" ss ->
  netListen socket =
    Listening (Accepted {| unread := map Value js ++ CloseDelim :: rest;
                           tail := t |} :: more) ->
  exists w,
    ObserveState fuel netListen None socket = (Some (OutOfFuel w), None) /\
    count CloseConn (trace w) = 0 /\
    count CloseChan (trace w) = 0.
Proof.
  intros Hjs Hstop Hnet. unfold ObserveState. rewrite Hnet.
  destruct (background_never_returns fuel js ss (CloseDelim :: rest) t more
              Hjs Hstop eq_refl) as (w & Hrun & Hconn & Hchan).
  rewrite Hrun. exists w. repeat split; assumption.
Qed.

Lemma C6_witness :
  exists w,
    ObserveState 1000
      (fun _ => Listening
                  [Accepted {| unread := map Value [wire "created"] ++
                                         CloseDelim :: [Value (wire "stopped")];
                               tail := PeerClosed |}])
      None "/run/sync.sock" = (Some (OutOfFuel w), None) /\
    count CloseConn (trace w) = 0 /\
    count CloseChan (trace w) = 0.
Proof.
  apply (C6_stray_delimiter_never_returns
           [wire "created"] ["created"] [Value (wire "stopped")] PeerClosed []
           (fun _ => Listening
                       [Accepted {| unread := map Value [wire "created"] ++
                                              CloseDelim :: [Value (wire "stopped")];
                                    tail := PeerClosed |}])
           "/run/sync.sock" 1000).
  - reflexivity.
  - simpl. intros [H|[]]. discriminate H.
  - reflexivity.
Defined.

(** ** Binding the socket *)

(** C8.  If [net.Listen] fails, [ObserveState] returns the nil channel (no
    task is run) and an error; if it succeeds, it returns a channel, fed by
    the background task, and the nil error. *)
Theorem C8_bind_failure_is_synchronous
        (fuel : nat) (netListen : string -> listenResult) (c : Context)
        (socket : string) :
  (forall err,
      netListen socket = ListenFailed err ->
      ObserveState fuel netListen c socket =
        (None, Some (String.append "could not listen sync socket: " err))) /\
  (forall ln,
      netListen socket = Listening ln ->
      exists r,
        ObserveState fuel netListen c socket = (Some r, None) /\
        r = background fuel ln {| ctx := c; trace := [] |}).
Proof.
  unfold ObserveState. split.
  - intros err H. rewrite H. reflexivity.
  - intros ln H. rewrite H. eexists. split; reflexivity.
Qed.

Lemma C8_witness :
  ObserveState 3 (fun _ => ListenFailed "address already in use") None
               "/run/sync.sock" =
    (None, Some (String.append "could not listen sync socket: "
                               "address already in use")) /\
  exists r,
    ObserveState 3 (fun _ => Listening [AcceptFailed]) None "/run/sync.sock" =
      (Some r, None) /\
    r = background 3 [AcceptFailed] {| ctx := None; trace := [] |}.
Proof.
  split.
  - apply (proj1 (C8_bind_failure_is_synchronous
                    3 (fun _ => ListenFailed "address already in use") None
                    "/run/sync.sock")).
    reflexivity.
  - apply (proj2 (C8_bind_failure_is_synchronous
                    3 (fun _ => Listening [AcceptFailed]) None
                    "/run/sync.sock")).
    reflexivity.
Defined.

(** ** Invariants of every run *)

(** Whatever the input, the decoder loop only sends and logs, and it
    returns false only with the context done. *)
Lemma syncLoop_inv (fuel : nat) :
  forall (dec : Decoder) (v : statusInfo) (w : world),
  exists es,
    trace (final (syncLoop fuel dec v w)) = trace w ++ es /\
    forallb loop_event es = true /\
    (forall w', syncLoop fuel dec v w = Returned false w' -> ctx w' = Some 0).
Proof.
  apply (syncLoop_run_ind
           (fun fuel dec v w r =>
              exists es,
                trace (final r) = trace w ++ es /\
                forallb loop_event es = true /\
                (forall w', r = Returned false w' -> ctx w' = Some 0))).
  - intros dec v w. exists []. simpl. rewrite app_nil_r.
    repeat split. discriminate.
  - intros fuel' dec v tr. exists [Log LogSyncContextDone]. simpl.
    repeat split. intros w' H. inversion H. reflexivity.
  - intros fuel' dec v c tr _ _. exists []. simpl. rewrite app_nil_r.
    repeat split. discriminate.
  - intros fuel' dec v c tr _ _ IH. exact IH.
  - intros fuel' dec v c tr _ _ _. exists [Log LogGotData]. simpl.
    repeat split. discriminate.
  - intros fuel' dec v c tr _ _. exists [Log LogGotData; Log LogDecodeFailed].
    simpl. repeat split. discriminate.
  - intros fuel' j rest t v v' c tr _ _ _.
    exists [Log LogGotData; Send StateExited; Log LogStopped].
    simpl. repeat split. discriminate.
  - intros fuel' j rest t v v' c tr _ _ _ (es & Htr & Hes & Hctx).
    exists (reaction (Status v') ++ es). simpl in *.
    split; [rewrite Htr, app_assoc; reflexivity|].
    split; [|exact Hctx]. rewrite forallb_app, Hes.
    unfold reaction. destruct (mapped (Status v')); reflexivity.
Qed.

Lemma loop_event_task_event (es : list event) :
  forallb loop_event es = true -> forallb task_event es = true.
Proof.
  induction es as [|e es IH]; simpl; [reflexivity|].
  intros H. apply andb_prop in H. destruct H as [He Hes].
  rewrite (IH Hes). destruct e; simpl in *; congruence.
Qed.

Lemma task_events_count (e : event) (es : list event) :
  task_event e = false -> forallb task_event es = true -> count e es = 0.
Proof.
  intros He. induction es as [|x es IH]; simpl; [reflexivity|].
  intros H. apply andb_prop in H. destruct H as [Hx Hes].
  unfold count in *. simpl.
  destruct e, x; simpl in *; try discriminate; auto.
Qed.

(** Whatever the listener gives, the accept loop closes neither the channel
    nor the listener itself, calls [Accept] at most once, and returns right
    after the events of one of its three exits. *)
Lemma acceptLoop_inv (fuel : nat) (ln : Listener) (w : world) :
  exists es,
    trace (final (acceptLoop fuel ln w)) = trace w ++ es /\
    forallb task_event es = true /\
    count Accept es <= 1 /\
    (forall x w', acceptLoop fuel ln w = Returned x w' ->
                  exists pre, es = pre ++ cause x).
Proof.
  destruct w as [c tr]. destruct fuel as [|fuel].
  - exists []. simpl. rewrite app_nil_r.
    repeat split; [unfold count; simpl; lia|discriminate].
  - assert (Hopen : forall c',
               exists es,
                 trace (final
                   ((emit Accept ;;
                     match ln with
                     | [] => block
                     | AcceptFailed :: _ =>
                       log LogAcceptFailed ;; ret ExitAcceptFailed
                     | Accepted conn :: ln' =>
                       shouldExit <- syncOnConn fuel conn ;;
                       if shouldExit then ret ExitDecoder
                       else acceptLoop fuel ln'
                     end) {| ctx := c'; trace := tr |})) = tr ++ es /\
                 forallb task_event es = true /\
                 count Accept es <= 1 /\
                 (forall x w',
                     (emit Accept ;;
                      match ln with
                      | [] => block
                      | AcceptFailed :: _ =>
                        log LogAcceptFailed ;; ret ExitAcceptFailed
                      | Accepted conn :: ln' =>
                        shouldExit <- syncOnConn fuel conn ;;
                        if shouldExit then ret ExitDecoder
                        else acceptLoop fuel ln'
                      end) {| ctx := c'; trace := tr |} = Returned x w' ->
                     exists pre, es = pre ++ cause x)).
    { intros c'. destruct ln as [|[|conn] ln'].
      - exists [Accept]. simpl. repeat split; [unfold count; simpl; lia|discriminate].
      - exists [Accept; Log LogAcceptFailed]. run. rewrite <- app_assoc.
        repeat split; [unfold count; simpl; lia|].
        intros x w' H. inversion H. exists []. reflexivity.
      - unfold syncOnConn, defer. run.
        destruct (syncLoop_inv fuel conn {| Status := "" |}
                    {| ctx := c'; trace := tr ++ [Accept] |})
          as (es & Htr & Hes & Hctx).
        destruct (syncLoop fuel conn {| Status := "" |}
                    {| ctx := c'; trace := tr ++ [Accept] |})
          as [b w1|w1|w1]; simpl in Htr.
        + run. destruct b.
          * exists ([Accept] ++ es ++ [CloseConn]). simpl.
            rewrite Htr, <- !app_assoc. split; [reflexivity|].
            split; [rewrite forallb_app, (loop_event_task_event es Hes); reflexivity|].
            split.
            -- change (Accept :: es ++ [CloseConn]) with ([Accept] ++ es ++ [CloseConn]).
               rewrite !count_app, (loop_events_count Accept es) by (reflexivity || exact Hes).
               unfold count. simpl. lia.
            -- intros x w' H. inversion H. exists (Accept :: es). reflexivity.
          * rewrite (Hctx w1 eq_refl). destruct fuel as [|fuel'].
            -- exists ([Accept] ++ es ++ [CloseConn]). simpl.
               rewrite Htr, <- !app_assoc. split; [reflexivity|].
               split; [rewrite forallb_app, (loop_event_task_event es Hes); reflexivity|].
               split; [|discriminate].
               change (Accept :: es ++ [CloseConn]) with ([Accept] ++ es ++ [CloseConn]).
               rewrite !count_app, (loop_events_count Accept es) by (reflexivity || exact Hes).
               unfold count. simpl. lia.
            -- rewrite acceptLoop_cancelled.
               exists ([Accept] ++ es ++ [CloseConn; Log LogContextDone]). simpl.
               rewrite Htr, <- !app_assoc. split; [reflexivity|].
               split; [rewrite forallb_app, (loop_event_task_event es Hes); reflexivity|].
               split.
               ++ change (Accept :: es ++ [CloseConn; Log LogContextDone])
                    with ([Accept] ++ es ++ [CloseConn; Log LogContextDone]).
                  rewrite !count_app, (loop_events_count Accept es) by (reflexivity || exact Hes).
                  unfold count. simpl. lia.
               ++ intros x w' H. inversion H. exists (Accept :: es ++ [CloseConn]).
                  simpl. rewrite <- app_assoc. reflexivity.
        + exists ([Accept] ++ es). simpl. rewrite Htr, <- !app_assoc.
          split; [reflexivity|].
          split; [exact (loop_event_task_event es Hes)|].
          split; [|discriminate].
          change (Accept :: es) with ([Accept] ++ es).
          rewrite count_app, (loop_events_count Accept es) by (reflexivity || exact Hes).
          unfold count. simpl. lia.
        + exists ([Accept] ++ es). simpl. rewrite Htr, <- !app_assoc.
          split; [reflexivity|].
          split; [exact (loop_event_task_event es Hes)|].
          split; [|discriminate].
          change (Accept :: es) with ([Accept] ++ es).
          rewrite count_app, (loop_events_count Accept es) by (reflexivity || exact Hes).
          unfold count. simpl. lia. }
    destruct c as [[|k]|].
    + exists [Log LogContextDone]. simpl. repeat split; [unfold count; simpl; lia|].
      intros x w' H. inversion H. exists []. reflexivity.
    + exact (Hopen (Some k)).
    + exact (Hopen None).
Qed.

(** C9.  In every run of the background task, whatever connections are
    waiting on the listener, [Accept] is called at most once. *)
Theorem C9_at_most_one_accept (fuel : nat) (ln : Listener) (c : Context) :
  count Accept (trace (final (background fuel ln {| ctx := c; trace := [] |}))) <= 1.
Proof.
  unfold background, defer. run.
  destruct (acceptLoop_inv fuel ln {| ctx := c; trace := [] |})
    as (es & Htr & _ & Hacc & _).
  destruct (acceptLoop fuel ln {| ctx := c; trace := [] |}) as [x w|w|w];
    simpl in *; rewrite Htr; [|exact Hacc|exact Hacc].
  rewrite <- app_assoc, count_app. unfold count at 2. simpl. lia.
Qed.

(** ** The shape of a message *)

Lemma object_lacksStatus (members : list (string * json)) (v : statusInfo)
      (saved : option decodeError) :
  lacksStatus members = true -> object members v saved = (v, saved).
Proof.
  revert v saved. induction members as [|[key item] members IH];
    intros v saved H; [reflexivity|].
  simpl in *. apply andb_prop in H. destruct H as [Hk Hms].
  destruct (isStatusKey key); [discriminate|]. apply IH, Hms.
Qed.

(** C10, as the code has it.  An object without a member for [Status],
    decoded while the status variable is still empty, leaves it empty: the
    loop logs an unknown status, sends nothing and goes on.  A value that is
    neither an object nor [null], or an object whose member for [Status] is
    neither a string nor [null], is a type error once the decoder has seen
    its end: the decoder sends nothing for it and returns true, and the task
    closes the channel.  A number, string or literal that ends the bytes of
    a connection the peer keeps open has no end the decoder can see: the
    loop stays inside [Decode], and nothing is sent or closed. *)
Theorem C10_message_shapes :
  (forall (members : list (string * json)) (fuel : nat) (rest : list token)
          (t : ending) (c : Context) (tr : list event),
      lacksStatus members = true ->
      live c 1 ->
      unmarshal (JObject members) {| Status := "" |} = ({| Status := "" |}, None) /\
      syncLoop (S fuel) {| unread := Value (JObject members) :: rest; tail := t |}
               {| Status := "" |} {| ctx := c; trace := tr |} =
      syncLoop fuel {| unread := rest; tail := t |} {| Status := "" |}
               {| ctx := advance 1 c;
                  trace := tr ++ [Log LogGotData; Log (LogUnknown "")] |}) /\
  (forall (j : json) (rest : list token) (t : ending) (more : Listener)
          (c : Context) (fuel : nat),
      wrongShape j = true ->
      live c 2 ->
      (forall v, snd (unmarshal j v) = Some UnmarshalTypeError) /\
      background (S (S fuel))
                 (Accepted {| unread := Value j :: rest; tail := t |} :: more)
                 {| ctx := c; trace := [] |} =
      Returned ExitDecoder
               {| ctx := advance 2 c;
                  trace := [Accept; Log LogGotData; Log LogDecodeFailed;
                            CloseConn; CloseListener; CloseChan] |}) /\
  (forall (more : Listener) (c : Context) (fuel : nat),
      live c 2 ->
      background (S (S fuel))
                 (Accepted {| unread := []; tail := PeerStalled |} :: more)
                 {| ctx := c; trace := [] |} =
      Blocked {| ctx := advance 2 c; trace := [Accept; Log LogGotData] |}).
Proof.
  split; [|split].
  - intros members fuel rest t c tr Hms Hc.
    assert (Hj : unmarshal (JObject members) {| Status := "" |} =
                 ({| Status := "" |}, None))
      by (apply object_lacksStatus, Hms).
    split; [exact Hj|].
    rewrite (syncLoop_continue fuel _ rest t _ _ c tr Hc Hj) by discriminate.
    reflexivity.
  - intros j rest t more c fuel Hj Hc. split.
    + intros v. rewrite unmarshal_error, Hj. reflexivity.
    + assert (Hc1 : live (advance 1 c) 1) by (apply (live_advance c 1 1), Hc).
      pose proof (syncOnConn_decode_failed [] [] (Value j) rest t (advance 1 c)
                    [Accept] fuel eq_refl (fun H => H)
                    (decodeFails_wrongShape j rest t Hj) Hc1) as Hsync.
      simpl in Hsync.
      rewrite (background_decoder_stops _ _ more c _
                 (live_le c 2 1 ltac:(lia) Hc) Hsync).
      simpl. rewrite advance_advance. reflexivity.
  - intros more c fuel Hc.
    assert (Hc0 : live c 1) by (apply (live_le c 2 1); [lia|exact Hc]).
    assert (Hc1 : live (advance 1 c) 1) by (apply (live_advance c 1 1), Hc).
    rewrite (background_accepted _ _ more c Hc0).
    unfold syncOnConn, defer. unfold bind at 1 2 3 4.
    rewrite syncLoop_stalled by (exact Hc1 || reflexivity).
    rewrite advance_advance. reflexivity.
Qed.

Lemma C10_witness :
  (unmarshal (JObject [("pid", JNumber "7")]) {| Status := "" |} =
     ({| Status := "" |}, None) /\
   syncLoop 2 {| unread := Value (JObject [("pid", JNumber "7")]) ::
                           [Value (wire "created")];
                 tail := PeerIdle |}
            {| Status := "" |} {| ctx := None; trace := [] |} =
   syncLoop 1 {| unread := [Value (wire "created")]; tail := PeerIdle |}
            {| Status := "" |}
            {| ctx := advance 1 None;
               trace := [] ++ [Log LogGotData; Log (LogUnknown "")] |}) /\
  ((forall v, snd (unmarshal (JObject [("status", JNumber "7")]) v) =
              Some UnmarshalTypeError) /\
   background 2
              [Accepted {| unread := Value (JObject [("status", JNumber "7")]) ::
                                     [Value (wire "created")];
                           tail := PeerIdle |}]
              {| ctx := None; trace := [] |} =
   Returned ExitDecoder
            {| ctx := advance 2 None;
               trace := [Accept; Log LogGotData; Log LogDecodeFailed;
                         CloseConn; CloseListener; CloseChan] |}) /\
  background 2 [Accepted {| unread := []; tail := PeerStalled |}]
             {| ctx := Some 2; trace := [] |} =
  Blocked {| ctx := advance 2 (Some 2); trace := [Accept; Log LogGotData] |}.
Proof.
  split; [|split].
  - apply (proj1 C10_message_shapes [("pid", JNumber "7")] 1
                 [Value (wire "created")] PeerIdle None []).
    + reflexivity.
    + exact I.
  - apply (proj1 (proj2 C10_message_shapes) (JObject [("status", JNumber "7")])
                 [Value (wire "created")] PeerIdle [] None 0).
    + reflexivity.
    + exact I.
  - apply (proj2 (proj2 C10_message_shapes) [] (Some 2) 0).
    simpl. lia.
Defined.

(** C10 as stated fails twice.  After a ["running"] message, an object
    without a status member does not decode to the empty status: the
    variable still holds ["running"] and [StateRunning] is sent again.  And
    [null], which is not an object, and an object whose status is [null],
    are no decode failures: they leave the variable as it is. *)
Lemma C10_counterexample :
  background 4 [Accepted {| unread := [Value (wire "running"); Value (JObject [])];
                            tail := PeerIdle |}]
             {| ctx := None; trace := [] |} =
    Blocked {| ctx := None;
               trace := [Accept; Log LogGotData; Send StateRunning;
                         Log LogGotData; Send StateRunning] |} /\
  unmarshal (JObject []) {| Status := "running" |} =
    ({| Status := "running" |}, None) /\
  unmarshal JNull {| Status := "running" |} = ({| Status := "running" |}, None) /\
  unmarshal (JObject [("status", JNull)]) {| Status := "running" |} =
    ({| Status := "running" |}, None).
Proof. repeat split. Qed.


(** * Further properties of the two loops *)

(** ** What is sent, for every input *)

Lemma states_fails (dec : Decoder) (v : statusInfo) :
  decodeFails dec -> states v (unread dec) = [].
Proof.
  intros [_ Hfail]. destruct (Hfail v) as (dec' & v' & e & HD).
  destruct dec as [[|tok rest] t]; [reflexivity|].
  destruct tok as [j| | |]; try reflexivity.
  unfold Decode in HD. simpl in *.
  destruct (unmarshal j v) as [v'' [e'|]]; [reflexivity|discriminate HD].
Qed.

Lemma states_stalled (dec : Decoder) (v : statusInfo) :
  Decode dec v = None -> states v (unread dec) = [].
Proof.
  destruct dec as [[|tok rest] t]; [reflexivity|].
  destruct tok as [j| | |]; try reflexivity.
  unfold Decode. simpl. destruct (unmarshal j v) as [v' e]. discriminate.
Qed.

Lemma states_waits (dec : Decoder) (v : statusInfo) :
  More dec = None -> states v (unread dec) = [].
Proof.
  destruct dec as [[|tok rest] t]; [reflexivity|].
  destruct tok; discriminate.
Qed.

Lemma states_spin (dec : Decoder) (v : statusInfo) :
  More dec = Some false -> states v (unread dec) = [].
Proof.
  destruct dec as [[|tok rest] t]; [reflexivity|].
  destruct tok; simpl; try discriminate. reflexivity.
Qed.

Lemma states_stopped (j : json) (rest : list token) (v v' : statusInfo) :
  unmarshal j v = (v', None) ->
  Status v' = "stopped" ->
  states v (Value j :: rest) = [StateExited].
Proof. intros Hj Hs. simpl. rewrite Hj, Hs. reflexivity. Qed.

Lemma states_continue (j : json) (rest : list token) (v v' : statusInfo) :
  unmarshal j v = (v', None) ->
  Status v' <> "stopped" ->
  states v (Value j :: rest) = sent (reaction (Status v')) ++ states v' rest.
Proof.
  intros Hj Hs. simpl. rewrite Hj. apply String.eqb_neq in Hs. rewrite Hs.
  rewrite sent_reaction. destruct (mapped (Status v')); reflexivity.
Qed.

Lemma sent_reaction_not_exited (s : string) : ~ In StateExited (sent (reaction s)).
Proof.
  rewrite sent_reaction. pose proof (mapped_not_exited s) as H.
  destruct (mapped s); simpl; [|tauto]. intros [E|[]]. congruence.
Qed.

(** For every fuel, input and context: what a run of the decoder loop adds
    to the states sent is a first part of [states]; all of it once the
    decoder is done with the input; and [StateExited] is in it only if the
    loop returned true. *)
Lemma syncLoop_sends (fuel : nat) (dec : Decoder) (v : statusInfo) (w : world) :
  exists p,
    sent (trace (final (syncLoop fuel dec v w))) = sent (trace w) ++ p /\
    prefix p (states v (unread dec)) /\
    (settled (syncLoop fuel dec v w) -> p = states v (unread dec)) /\
    (In StateExited p ->
     exists w' pre,
       syncLoop fuel dec v w = Returned true w' /\
       trace w' = pre ++ [Send StateExited; Log LogStopped]).
Proof.
  apply (syncLoop_run_ind
           (fun fuel dec v w r =>
              exists p,
                sent (trace (final r)) = sent (trace w) ++ p /\
                prefix p (states v (unread dec)) /\
                (settled r -> p = states v (unread dec)) /\
                (In StateExited p ->
                 exists w' pre,
                   r = Returned true w' /\
                   trace w' = pre ++ [Send StateExited; Log LogStopped])));
    clear fuel dec v w.
  - intros dec v w. exists []. simpl. rewrite app_nil_r.
    split; [reflexivity|]. split; [eexists; reflexivity|]. split; intros [].
  - intros fuel dec v tr. exists []. simpl. rewrite sent_app.
    split; [reflexivity|]. split; [eexists; reflexivity|].
    split; intros [].
  - intros fuel dec v c tr _ HM. exists [].
    cbn [final trace]. rewrite app_nil_r, (states_waits dec v HM).
    split; [reflexivity|]. split; [eexists; reflexivity|].
    split; [reflexivity|intros []].
  - intros fuel dec v c tr _ _ IH. exact IH.
  - intros fuel dec v c tr _ _ HD. exists [].
    cbn [final trace]. rewrite sent_app, (states_stalled dec v HD).
    split; [reflexivity|]. split; [eexists; reflexivity|].
    split; [reflexivity|intros []].
  - intros fuel dec v c tr _ Hfail. exists [].
    cbn [final trace].
    rewrite sent_app, (states_fails dec v Hfail).
    split; [reflexivity|]. split; [eexists; reflexivity|].
    split; [reflexivity|intros []].
  - intros fuel j rest t v v' c tr _ Hj Hs. exists [StateExited].
    cbn [final trace unread]. rewrite sent_app, (states_stopped j rest v v' Hj Hs).
    split; [reflexivity|]. split; [exists []; reflexivity|].
    split; [reflexivity|]. intros _.
    exists {| ctx := advance 1 c;
              trace := tr ++ [Log LogGotData; Send StateExited; Log LogStopped] |}.
    exists (tr ++ [Log LogGotData]). split; [reflexivity|].
    simpl. rewrite <- app_assoc. reflexivity.
  - intros fuel j rest t v v' c tr _ Hj Hs (p & Hsent & [q Hq] & Hset & Hex).
    exists (sent (reaction (Status v')) ++ p).
    cbn [final trace unread] in *. rewrite (states_continue j rest v v' Hj Hs).
    split; [rewrite Hsent, sent_app, app_assoc; reflexivity|].
    split; [exists q; rewrite Hq, app_assoc; reflexivity|].
    split; [intros H; rewrite (Hset H); reflexivity|].
    intros H. apply in_app_or in H. destruct H as [H|H]; [|exact (Hex H)].
    destruct (sent_reaction_not_exited _ H).
Qed.

Lemma states_length (toks : list token) :
  forall v, List.length (states v toks) <= List.length toks.
Proof.
  induction toks as [|tok rest IH]; intros v; [simpl; lia|].
  destruct tok as [j| | |]; simpl; try lia.
  destruct (unmarshal j v) as [v' [e|]]; simpl; [lia|].
  destruct (Status v' =? "stopped"); simpl; [lia|].
  specialize (IH v'). destruct (mapped (Status v')); simpl; lia.
Qed.

(** In [states], nothing follows [StateExited]. *)
Lemma states_exited_last (toks : list token) :
  forall v a b, states v toks = a ++ StateExited :: b -> b = [].
Proof.
  induction toks as [|tok rest IH]; intros v a b H.
  - destruct a; discriminate H.
  - destruct tok as [j| | |]; try (destruct a; discriminate H).
    simpl in H. destruct (unmarshal j v) as [v' [e|]];
      [destruct a; discriminate H|].
    destruct (Status v' =? "stopped").
    + destruct a as [|x a]; [inversion H; reflexivity|].
      inversion H. destruct a; discriminate.
    + pose proof (mapped_not_exited (Status v')) as Hm.
      destruct (mapped (Status v')) as [x|]; [|exact (IH v' a b H)].
      destruct a as [|y a]; inversion H; subst; [congruence|].
      eapply IH; eassumption.
Qed.

Lemma prefix_exited_last (l a b q : list State) :
  (forall a' b', l = a' ++ StateExited :: b' -> b' = []) ->
  l = (a ++ StateExited :: b) ++ q ->
  b = [] /\ q = [] /\ ~ In StateExited a.
Proof.
  intros Hlast Hl. rewrite <- app_assoc in Hl. simpl in Hl.
  pose proof (Hlast a (b ++ q) Hl) as Hbq.
  apply app_eq_nil in Hbq. destruct Hbq as [Hb Hq]. subst b q.
  repeat split. intros Hin. apply in_split in Hin.
  destruct Hin as (a1 & a2 & Ha). subst a.
  rewrite <- app_assoc in Hl. simpl in Hl.
  pose proof (Hlast a1 (a2 ++ [StateExited]) Hl) as Habs.
  destruct a2; discriminate Habs.
Qed.

(** ** Why the decoder returned *)

Lemma verdict_app (b : bool) (l es : list event) :
  verdict b es -> verdict b (l ++ es).
Proof.
  destruct b; simpl.
  - intros [[pre H]|[pre H]]; [left|right]; exists (l ++ pre);
      rewrite H, app_assoc; reflexivity.
  - intros [pre H]. exists (l ++ pre). rewrite H, app_assoc. reflexivity.
Qed.

Lemma syncLoop_verdict (fuel : nat) (dec : Decoder) (v : statusInfo) (w : world) :
  forall b w',
    syncLoop fuel dec v w = Returned b w' ->
    exists es,
      trace w' = trace w ++ es /\ verdict b es /\
      (b = false -> ctx w' = Some 0).
Proof.
  apply (syncLoop_run_ind
           (fun fuel dec v w r =>
              forall b w',
                r = Returned b w' ->
                exists es,
                  trace w' = trace w ++ es /\ verdict b es /\
                  (b = false -> ctx w' = Some 0)));
    clear fuel dec v w.
  - discriminate.
  - intros fuel dec v tr b w' H. inversion H; subst.
    exists [Log LogSyncContextDone]. simpl.
    repeat split. exists []. reflexivity.
  - discriminate.
  - intros fuel dec v c tr _ _ IH. exact IH.
  - discriminate.
  - intros fuel dec v c tr _ _ b w' H. inversion H; subst.
    exists [Log LogGotData; Log LogDecodeFailed]. simpl.
    split; [reflexivity|]. split; [left; exists []; reflexivity|discriminate].
  - intros fuel j rest t v v' c tr _ _ _ b w' H. inversion H; subst.
    exists [Log LogGotData; Send StateExited; Log LogStopped]. simpl.
    split; [reflexivity|]. split; [right; exists []; reflexivity|discriminate].
  - intros fuel j rest t v v' c tr _ _ _ IH b w' H.
    destruct (IH b w' H) as (es & Htr & Hv & Hc).
    exists (reaction (Status v') ++ es). simpl in *.
    split; [rewrite Htr, app_assoc; reflexivity|].
    split; [apply verdict_app, Hv|exact Hc].
Qed.

(** ** A context that gets cancelled stops the polling *)

Lemma syncLoop_no_spin (fuel : nat) (dec : Decoder) (v : statusInfo) (w : world) :
  forall k, ctx w = Some k -> k < fuel ->
            forall w', syncLoop fuel dec v w <> OutOfFuel w'.
Proof.
  apply (syncLoop_run_ind
           (fun fuel dec v w r =>
              forall k, ctx w = Some k -> k < fuel ->
                        forall w', r <> OutOfFuel w'));
    clear fuel dec v w; try discriminate.
  - intros dec v w k _ Hk. lia.
  - intros fuel dec v c tr Hc _ IH k Hk Hfuel. simpl in Hk. subst c.
    simpl in Hc. apply (IH (k - 1)); [reflexivity|lia].
  - intros fuel j rest t v v' c tr Hc _ _ IH k Hk Hfuel. simpl in Hk. subst c.
    simpl in Hc. apply (IH (k - 1)); [reflexivity|lia].
Qed.

(** ** The cases of a run of the task *)

Lemma acceptLoop_first_connection (fuel : nat) (conn : Decoder) (ln : Listener)
      (c : Context) (tr : list event) :
  live c 1 ->
  acceptLoop (S fuel) (Accepted conn :: ln) {| ctx := c; trace := tr |} =
  match syncLoop fuel conn status0 {| ctx := advance 1 c; trace := tr ++ [Accept] |} with
  | Returned true w1 =>
    Returned ExitDecoder {| ctx := ctx w1; trace := trace w1 ++ [CloseConn] |}
  | Returned false w1 =>
    Returned ExitCancelled
             {| ctx := Some 0;
                trace := trace w1 ++ [CloseConn; Log LogContextDone] |}
  | Blocked w1 => Blocked w1
  | OutOfFuel w1 => OutOfFuel w1
  end.
Proof.
  intros Hc. rewrite acceptLoop_accepted by exact Hc.
  unfold syncOnConn, defer, status0. run.
  pose proof (syncLoop_verdict fuel conn {| Status := "" |}
                {| ctx := advance 1 c; trace := tr ++ [Accept] |}) as Hv.
  destruct (syncLoop fuel conn {| Status := "" |}
                     {| ctx := advance 1 c; trace := tr ++ [Accept] |})
    as [[|] w1|w1|w1] eqn:E; try reflexivity.
  destruct (Hv false w1 eq_refl) as (es & _ & _ & Hctx).
  rewrite (Hctx eq_refl).
  destruct fuel as [|fuel]; [discriminate E|].
  rewrite acceptLoop_cancelled, <- app_assoc. reflexivity.
Qed.

Lemma background_first_connection (fuel : nat) (conn : Decoder) (ln : Listener)
      (c : Context) :
  live c 1 ->
  background (S fuel) (Accepted conn :: ln) {| ctx := c; trace := [] |} =
  match syncLoop fuel conn status0 {| ctx := advance 1 c; trace := [Accept] |} with
  | Returned true w1 =>
    Returned ExitDecoder
             {| ctx := ctx w1;
                trace := trace w1 ++ [CloseConn; CloseListener; CloseChan] |}
  | Returned false w1 =>
    Returned ExitCancelled
             {| ctx := Some 0;
                trace := trace w1 ++ [CloseConn; Log LogContextDone;
                                      CloseListener; CloseChan] |}
  | Blocked w1 => Blocked w1
  | OutOfFuel w1 => OutOfFuel w1
  end.
Proof.
  intros Hc. unfold background, defer. unfold bind at 1 2.
  rewrite (acceptLoop_first_connection fuel conn ln c [] Hc). simpl app.
  destruct (syncLoop fuel conn status0 {| ctx := advance 1 c; trace := [Accept] |})
    as [[|] w1|w1|w1]; run; rewrite <- ?app_assoc; reflexivity.
Qed.

Lemma background_cancelled (fuel : nat) (ln : Listener) :
  background (S fuel) ln {| ctx := Some 0; trace := [] |} =
  Returned ExitCancelled
           {| ctx := Some 0;
              trace := [Log LogContextDone; CloseListener; CloseChan] |}.
Proof. reflexivity. Qed.

Lemma background_no_peer (fuel : nat) (c : Context) :
  live c 1 ->
  background (S fuel) [] {| ctx := c; trace := [] |} =
  Blocked {| ctx := advance 1 c; trace := [Accept] |}.
Proof.
  intros Hc. unfold background, defer. simpl. run.
  rewrite (poll_live c 0 Hc). reflexivity.
Qed.

Lemma background_accept_failed (fuel : nat) (ln : Listener) (c : Context) :
  live c 1 ->
  background (S fuel) (AcceptFailed :: ln) {| ctx := c; trace := [] |} =
  Returned ExitAcceptFailed
           {| ctx := advance 1 c;
              trace := [Accept; Log LogAcceptFailed; CloseListener; CloseChan] |}.
Proof.
  intros Hc. unfold background, defer. simpl. run.
  rewrite (poll_live c 0 Hc). reflexivity.
Qed.

Lemma background_of_decoder (fuel : nat) (conn : Decoder) (ln : Listener)
      (c : Context) :
  live c 1 ->
  background (S fuel) (Accepted conn :: ln) {| ctx := c; trace := [] |} =
  match syncOnConn fuel conn {| ctx := advance 1 c; trace := [Accept] |} with
  | Returned true w1 =>
    Returned ExitDecoder
             {| ctx := ctx w1; trace := trace w1 ++ [CloseListener; CloseChan] |}
  | Returned false w1 =>
    Returned ExitCancelled
             {| ctx := ctx w1;
                trace := trace w1 ++ [Log LogContextDone;
                                      CloseListener; CloseChan] |}
  | Blocked w1 => Blocked w1
  | OutOfFuel w1 => OutOfFuel w1
  end.
Proof.
  intros Hc. rewrite (background_first_connection fuel conn ln c Hc).
  unfold syncOnConn, defer, status0. run.
  pose proof (syncLoop_verdict fuel conn {| Status := "" |}
                {| ctx := advance 1 c; trace := [Accept] |}) as Hv.
  destruct (syncLoop fuel conn {| Status := "" |}
                     {| ctx := advance 1 c; trace := [Accept] |})
    as [[|] w1|w1|w1]; simpl; rewrite <- ?app_assoc; try reflexivity.
  destruct (Hv false w1 eq_refl) as (es & _ & _ & Hctx).
  rewrite (Hctx eq_refl). reflexivity.
Qed.

(** C5, as the code has it.  The channel is closed when the background
    task exits, and it exits in exactly these cases: its own check finds
    the context done (at the start, or after the decoder returned false),
    [Accept] fails, or the decoder returns true.  Blocked inside [Accept],
    or with a decoder that has not returned, it closes nothing.  In every
    run: if the task has returned, its trace ends with the events of one
    exit, then [CloseListener], then [CloseChan], neither of which occurs
    earlier, so the channel is closed once, nothing is sent after, and the
    listener is released; if it has not returned, neither is closed. *)
Theorem C5_channel_closed_exactly_on_exit
        (fuel : nat) (ln : Listener) (c : Context) :
  background (S fuel) ln {| ctx := c; trace := [] |} =
    (if fst (poll c) then
       Returned ExitCancelled
                {| ctx := snd (poll c);
                   trace := [Log LogContextDone; CloseListener; CloseChan] |}
     else
       match ln with
       | [] => Blocked {| ctx := snd (poll c); trace := [Accept] |}
       | AcceptFailed :: _ =>
         Returned ExitAcceptFailed
                  {| ctx := snd (poll c);
                     trace := [Accept; Log LogAcceptFailed;
                               CloseListener; CloseChan] |}
       | Accepted conn :: _ =>
         match syncOnConn fuel conn {| ctx := snd (poll c); trace := [Accept] |} with
         | Returned true w1 =>
           Returned ExitDecoder
                    {| ctx := ctx w1;
                       trace := trace w1 ++ [CloseListener; CloseChan] |}
         | Returned false w1 =>
           Returned ExitCancelled
                    {| ctx := ctx w1;
                       trace := trace w1 ++ [Log LogContextDone;
                                             CloseListener; CloseChan] |}
         | Blocked w1 => Blocked w1
         | OutOfFuel w1 => OutOfFuel w1
         end
       end) /\
  match background fuel ln {| ctx := c; trace := [] |} with
  | Returned x w =>
    exists pre,
      trace w = (pre ++ cause x) ++ [CloseListener; CloseChan] /\
      count CloseChan (pre ++ cause x) = 0 /\
      count CloseListener (pre ++ cause x) = 0 /\
      count CloseChan (trace w) = 1 /\
      count CloseListener (trace w) = 1
  | Blocked w | OutOfFuel w =>
    count CloseChan (trace w) = 0 /\ count CloseListener (trace w) = 0
  end.
Proof.
  split.
  - destruct (context_cases c) as [Hc|Hc].
    + subst c. simpl. apply background_cancelled.
    + rewrite (poll_live c 0 Hc). cbn [fst snd].
      destruct ln as [|[|conn] ln].
      * apply background_no_peer, Hc.
      * apply background_accept_failed, Hc.
      * apply background_of_decoder, Hc.
  - unfold background, defer. run.
    destruct (acceptLoop_inv fuel ln {| ctx := c; trace := [] |})
      as (es & Htr & Hes & _ & Hexit).
    destruct (acceptLoop fuel ln {| ctx := c; trace := [] |}) as [x w|w|w];
      simpl in Htr.
    + destruct (Hexit x w eq_refl) as [pre Hpre].
      simpl. exists pre. rewrite Htr, <- Hpre, <- app_assoc. simpl.
      split; [reflexivity|].
      pose proof (task_events_count CloseChan es eq_refl Hes) as H1.
      pose proof (task_events_count CloseListener es eq_refl Hes) as H2.
      rewrite !count_app, H1, H2. repeat split.
    + rewrite Htr. split; apply task_events_count; auto.
    + rewrite Htr. split; apply task_events_count; auto.
Qed.

(** C5 as stated fails: when no peer ever connects and the context is
    never cancelled, the task stays inside [Accept]; however long it runs,
    the channel is not closed once but never. *)
Lemma C5_counterexample :
  ~ exists fuel,
      count CloseChan
            (trace (final (background fuel [] {| ctx := None; trace := [] |}))) = 1.
Proof.
  intros [fuel H]. destruct fuel as [|fuel].
  - discriminate H.
  - rewrite (background_no_peer fuel None I) in H. discriminate H.
Qed.

Lemma background_sends (fuel : nat) (ln : Listener) (c : Context) :
  exists p,
    sent (trace (final (background fuel ln {| ctx := c; trace := [] |}))) = p /\
    prefix p (sessionStates ln) /\
    (match background fuel ln {| ctx := c; trace := [] |} with
     | Returned ExitDecoder _ | Blocked _ => p = sessionStates ln
     | _ => True
     end) /\
    (In StateExited p ->
     exists w pre,
       background fuel ln {| ctx := c; trace := [] |} = Returned ExitDecoder w /\
       trace w = pre ++ [Send StateExited; Log LogStopped;
                         CloseConn; CloseListener; CloseChan]).
Proof.
  destruct fuel as [|fuel].
  { exists []. repeat split; [eexists; reflexivity|intros []]. }
  destruct (context_cases c) as [Hc|Hc].
  { subst c. rewrite background_cancelled. exists [].
    repeat split; [eexists; reflexivity|intros []]. }
  destruct ln as [|[|conn] ln].
  - rewrite (background_no_peer fuel c Hc). exists [].
    repeat split; [eexists; reflexivity|intros []].
  - rewrite (background_accept_failed fuel ln c Hc). exists [].
    repeat split; [eexists; reflexivity|intros []].
  - rewrite (background_first_connection fuel conn ln c Hc).
    destruct (syncLoop_sends fuel conn status0
                {| ctx := advance 1 c; trace := [Accept] |})
      as (p & Hsent & Hpre & Hset & Hex).
    exists p. cbn [sessionStates].
    destruct (syncLoop fuel conn status0 {| ctx := advance 1 c; trace := [Accept] |})
      as [[|] w1|w1|w1]; cbn [final trace settled] in *;
      rewrite ?sent_app, ?app_nil_r; simpl in Hsent;
      (split; [simpl; rewrite ?app_nil_r; exact Hsent|]);
      (split; [exact Hpre|]).
    + split; [exact (Hset I)|]. intros Hin.
      destruct (Hex Hin) as (w' & pre & Hw & Htr). inversion Hw; subst w'.
      eexists. exists pre. split; [reflexivity|].
      cbn [trace]. rewrite Htr, <- app_assoc. reflexivity.
    + split; [exact I|]. intros Hin.
      destruct (Hex Hin) as (w' & pre & Hw & _). discriminate Hw.
    + split; [exact (Hset I)|]. intros Hin.
      destruct (Hex Hin) as (w' & pre & Hw & _). discriminate Hw.
    + split; [exact I|]. intros Hin.
      destruct (Hex Hin) as (w' & pre & Hw & _). discriminate Hw.
Qed.

(** ** Further properties *)

(** X1.  The four states are the integers 1 to 4, in the order of their
    declaration and all different; none is 0, the value a receive on the
    closed channel gives. *)
Theorem X1_State_int_distinct_nonzero :
  (forall s, 1 <= State_int s <= 4) /\
  (forall s s', State_int s = State_int s' -> s = s') /\
  State_int StateCreating < State_int StateCreated /\
  State_int StateCreated < State_int StateRunning /\
  State_int StateRunning < State_int StateExited.
Proof.
  split; [intros []; simpl; lia|].
  split; [intros [] []; simpl; intros H; (reflexivity || discriminate H)|].
  simpl. lia.
Qed.

(** X2.  For every fuel, listener and context, the states a session has
    sent are a first part of [sessionStates]: what the first accepted
    connection carries decides what can be sent and in which order, and
    cancellation only cuts it short.  When the task has ended through the
    decoder, all of [sessionStates] has been sent. *)
Theorem X2_session_sends_what_the_connection_carries
        (fuel : nat) (ln : Listener) (c : Context) :
  prefix (sent (trace (final (background fuel ln {| ctx := c; trace := [] |}))))
         (sessionStates ln) /\
  match background fuel ln {| ctx := c; trace := [] |} with
  | Returned ExitDecoder w => sent (trace w) = sessionStates ln
  | _ => True
  end.
Proof.
  destruct (background_sends fuel ln c) as (p & Hp & Hpre & Hall & _).
  split; [rewrite Hp; exact Hpre|].
  destruct (background fuel ln {| ctx := c; trace := [] |}) as [[| |] w|w|w];
    simpl in *; try exact I; congruence.
Qed.

(** X12.  When the task is blocked (inside [Accept], or inside a read that
    never comes back), it has sent all of [sessionStates]: a state for
    every value whose end the decoder has seen. *)
Theorem X12_blocked_task_has_sent_everything
        (fuel : nat) (ln : Listener) (c : Context) :
  match background fuel ln {| ctx := c; trace := [] |} with
  | Blocked w => sent (trace w) = sessionStates ln
  | _ => True
  end.
Proof.
  destruct (background_sends fuel ln c) as (p & Hp & _ & Hall & _).
  destruct (background fuel ln {| ctx := c; trace := [] |}) as [x w|w|w];
    simpl in *; try exact I; congruence.
Qed.

(** X3.  For every fuel, connection and world.  When [syncOnConn] returns,
    what it added to the trace is sends and log lines followed by one
    [CloseConn]; it returns true right after a failed decode or after
    sending [StateExited], false right after finding the context done.
    While it has not returned, it has only sent and logged: the connection
    is open. *)
Theorem X3_syncOnConn_exit_paths (fuel : nat) (conn : Decoder) (w : world) :
  match syncOnConn fuel conn w with
  | Returned b w' =>
    exists es,
      trace w' = trace w ++ es ++ [CloseConn] /\
      forallb loop_event es = true /\
      verdict b es /\
      (if b then True else ctx w' = Some 0)
  | Blocked w' | OutOfFuel w' =>
    exists es, trace w' = trace w ++ es /\ forallb loop_event es = true
  end.
Proof.
  unfold syncOnConn, defer. run.
  destruct (syncLoop_inv fuel conn {| Status := "" |} w) as (es & Htr & Hes & _).
  pose proof (syncLoop_verdict fuel conn {| Status := "" |} w) as Hv.
  destruct (syncLoop fuel conn {| Status := "" |} w) as [b w1|w1|w1];
    simpl in *; [|exists es; tauto|exists es; tauto].
  destruct (Hv b w1 eq_refl) as (es' & Htr' & Hverdict & Hctx).
  assert (es' = es) by (apply (app_inv_head (trace w)); congruence). subst es'.
  exists es. rewrite Htr, <- app_assoc.
  repeat split; try assumption. destruct b; [exact I|exact (Hctx eq_refl)].
Qed.

(** X4.  If [StateExited] is among the states a session has sent, it was
    sent once and last, and the task has returned through the decoder:
    right after sending it the connection, the listener and the channel
    were closed.  This holds for every input, fuel and context. *)
Theorem X4_exited_is_always_last
        (fuel : nat) (ln : Listener) (c : Context) (a b : list State) :
  sent (trace (final (background fuel ln {| ctx := c; trace := [] |}))) =
    a ++ StateExited :: b ->
  b = [] /\
  ~ In StateExited a /\
  exists w pre,
    background fuel ln {| ctx := c; trace := [] |} = Returned ExitDecoder w /\
    trace w = pre ++ [Send StateExited; Log LogStopped;
                      CloseConn; CloseListener; CloseChan].
Proof.
  intros Hsent.
  destruct (background_sends fuel ln c) as (p & Hp & [q Hq] & _ & Hex).
  rewrite Hsent in Hp. subst p.
  assert (Hlast : forall a' b', sessionStates ln = a' ++ StateExited :: b' -> b' = []).
  { destruct ln as [|[|conn] ln]; simpl;
      try (intros [|] ? H; discriminate H).
    intros a' b'. apply states_exited_last. }
  destruct (prefix_exited_last _ a b q Hlast Hq) as (Hb & _ & Ha).
  split; [exact Hb|]. split; [exact Ha|].
  apply Hex. apply in_or_app. right. left. reflexivity.
Qed.

Lemma X4_witness :
  @nil State = [] /\
  ~ In StateExited [StateCreating] /\
  exists w pre,
    background 4 [Accepted {| unread := [Value (wire "creating");
                                         Value (wire "stopped");
                                         Value (wire "running")];
                              tail := PeerIdle |}]
               {| ctx := None; trace := [] |} = Returned ExitDecoder w /\
    trace w = pre ++ [Send StateExited; Log LogStopped;
                      CloseConn; CloseListener; CloseChan].
Proof.
  apply (X4_exited_is_always_last
           4 [Accepted {| unread := [Value (wire "creating");
                                     Value (wire "stopped");
                                     Value (wire "running")];
                          tail := PeerIdle |}]
           None [StateCreating] []).
  reflexivity.
Defined.

(** X5.  A session sends at most one state per message of the first
    accepted connection, and none without a connection. *)
Theorem X5_at_most_one_state_per_message
        (fuel : nat) (ln : Listener) (c : Context) :
  List.length (sent (trace (final (background fuel ln {| ctx := c; trace := [] |}))))
  <= match ln with
     | Accepted conn :: _ => List.length (unread conn)
     | _ => 0
     end.
Proof.
  destruct (background_sends fuel ln c) as (p & Hp & [q Hq] & _ & _).
  rewrite Hp.
  assert (Hlen : List.length p <= List.length (sessionStates ln))
    by (rewrite Hq, length_app; lia).
  destruct ln as [|[|conn] ln]; simpl in *; try lia.
  pose proof (states_length (unread conn) status0). lia.
Qed.

(** [states] on well-formed messages is the mapping table, applied up to
    the first ["stopped"]. *)
Lemma states_wire (ss : list string) (rest : list token) (v : statusInfo) :
  ~ In "stopped" ss ->
  states v (map (fun s => Value (wire s)) ss) = emitted ss /\
  states v (map (fun s => Value (wire s)) ss ++ Value (wire "stopped") :: rest) =
    emitted ss ++ [StateExited].
Proof.
  revert v. induction ss as [|s ss IH]; intros v Hstop.
  - split; reflexivity.
  - simpl in Hstop.
    assert (Hs : s <> "stopped") by (intros E; apply Hstop; left; exact E).
    destruct (IH {| Status := s |}) as [IH1 IH2]; [tauto|].
    simpl map. simpl app.
    rewrite !(states_continue (wire s) _ v {| Status := s |} eq_refl Hs).
    cbn [Status]. rewrite IH1, IH2, sent_reaction. simpl emitted.
    rewrite <- app_assoc. split; reflexivity.
Qed.

(** X6.  A polling loop does not outlive the context: when the context is
    cancelled after [k] polls, a run of more than [k] iterations is never
    still looping, whatever the listener and the connection give; the task
    has returned or is blocked inside [Accept] or a read. *)
Theorem X6_cancelled_context_ends_polling
        (fuel : nat) (ln : Listener) (k : nat) :
  k < fuel ->
  match background fuel ln {| ctx := Some k; trace := [] |} with
  | OutOfFuel _ => False
  | Returned _ _ | Blocked _ => True
  end.
Proof.
  intros Hk. destruct fuel as [|fuel]; [lia|].
  destruct (context_cases (Some k)) as [Hc|Hc].
  - rewrite Hc, background_cancelled. exact I.
  - destruct ln as [|[|conn] ln].
    + rewrite (background_no_peer fuel _ Hc). exact I.
    + rewrite (background_accept_failed fuel ln _ Hc). exact I.
    + rewrite (background_first_connection fuel conn ln _ Hc).
      pose proof (syncLoop_no_spin fuel conn status0
                    {| ctx := advance 1 (Some k); trace := [Accept] |}
                    (k - 1) eq_refl) as Hspin.
      simpl in Hc.
      destruct (syncLoop fuel conn status0
                         {| ctx := advance 1 (Some k); trace := [Accept] |})
        as [[|] w1|w1|w1]; try exact I.
      apply (Hspin ltac:(lia) w1). reflexivity.
Qed.

Lemma X6_witness :
  match background 3 [Accepted {| unread := [CloseDelim]; tail := PeerClosed |}]
                   {| ctx := Some 2; trace := [] |} with
  | OutOfFuel _ => False
  | Returned _ _ | Blocked _ => True
  end.
Proof.
  apply (X6_cancelled_context_ends_polling
           3 [Accepted {| unread := [CloseDelim]; tail := PeerClosed |}] 2).
  lia.
Defined.

Lemma syncLoop_closed_cancel (k fuel : nat) (v : statusInfo) (tr : list event) :
  syncLoop (k + S fuel) {| unread := []; tail := PeerClosed |} v
           {| ctx := Some k; trace := tr |} =
  Returned false {| ctx := Some 0; trace := tr ++ [Log LogSyncContextDone] |}.
Proof.
  induction k as [|k IH]; [apply syncLoop_cancelled|].
  change (S k + S fuel) with (S (k + S fuel)).
  rewrite syncLoop_spin by (simpl; lia || reflexivity).
  simpl advance. rewrite Nat.sub_0_r. exact IH.
Qed.

(** X7.  The peer writes messages without a terminal value and closes the
    connection, and the context is cancelled later, after [k] polls.  Once
    the loop has turned [k] times the decoder sees the cancellation and
    returns false, and the task closes the connection, the listener and the
    channel; the states of all the messages were sent. *)
Theorem X7_closed_peer_ends_with_cancellation
        (js : list json) (ss : list string) (more : Listener)
        (netListen : string -> listenResult) (socket : string)
        (k fuel : nat) :
  decoded status0 js = Some ss ->
  ~ In "stopped" ss ->
  netListen socket =
    Listening (Accepted {| unread := map Value js; tail := PeerClosed |} :: more) ->
  List.length js < k ->
  k < fuel ->
  ObserveState fuel netListen (Some k) socket =
  (Some (Returned ExitCancelled
           {| ctx := Some 0;
              trace := Accept :: reactions ss ++
                       [Log LogSyncContextDone; CloseConn;
                        Log LogContextDone; CloseListener; CloseChan] |}),
   None).
Proof.
  intros Hjs Hstop Hnet Hk Hfuel. unfold ObserveState. rewrite Hnet.
  destruct fuel as [|fuel]; [lia|].
  rewrite background_first_connection by (simpl; lia).
  rewrite <- (app_nil_r (map Value js)).
  replace fuel
    with (List.length js + ((k - 1 - List.length js) + S (fuel - k))) by lia.
  rewrite (syncLoop_prefix js ss _ [] PeerClosed status0 _ [Accept] Hjs Hstop)
    by (simpl; lia).
  simpl advance.
  rewrite syncLoop_closed_cancel. cbn [trace].
  rewrite <- !app_assoc. reflexivity.
Qed.

Lemma X7_witness :
  ObserveState 6
    (fun _ => Listening [Accepted {| unread := map Value [wire "created"];
                                     tail := PeerClosed |}])
    (Some 5) "/run/sync.sock" =
  (Some (Returned ExitCancelled
           {| ctx := Some 0;
              trace := Accept :: reactions ["created"] ++
                       [Log LogSyncContextDone; CloseConn;
                        Log LogContextDone; CloseListener; CloseChan] |}),
   None).
Proof.
  apply (X7_closed_peer_ends_with_cancellation
           [wire "created"] ["created"] []
           (fun _ => Listening [Accepted {| unread := map Value [wire "created"];
                                            tail := PeerClosed |}])
           "/run/sync.sock" 5 6).
  - reflexivity.
  - simpl. intros [H|[]]. discriminate H.
  - reflexivity.
  - simpl. lia.
  - lia.
Defined.

(** X8.  The run of the task depends on the first result of [Accept] only:
    whatever waits behind it on the listener, the task does the same. *)
Theorem X8_later_connections_play_no_part
        (fuel : nat) (a : acceptResult) (more more' : Listener) (c : Context) :
  background fuel (a :: more) {| ctx := c; trace := [] |} =
  background fuel (a :: more') {| ctx := c; trace := [] |}.
Proof.
  destruct fuel as [|fuel]; [reflexivity|].
  destruct (context_cases c) as [Hc|Hc].
  - subst c. rewrite !background_cancelled. reflexivity.
  - destruct a as [|conn].
    + rewrite !(background_accept_failed fuel _ c Hc). reflexivity.
    + rewrite !(background_first_connection fuel conn _ c Hc). reflexivity.
Qed.

(** X9.  Before any connection, with the context still open at the first
    check.  If no peer ever connects the task stays inside [Accept] with
    the channel open, however soon the context is cancelled afterwards.  If
    [Accept] fails the task logs it and returns: nothing was sent, the
    listener and the channel are closed, and [Accept] is not tried again. *)
Theorem X9_first_accept_blocks_or_fails
        (fuel : nat) (ln : Listener) (c : Context) :
  live c 1 ->
  background (S fuel) [] {| ctx := c; trace := [] |} =
    Blocked {| ctx := advance 1 c; trace := [Accept] |} /\
  background (S fuel) (AcceptFailed :: ln) {| ctx := c; trace := [] |} =
    Returned ExitAcceptFailed
             {| ctx := advance 1 c;
                trace := [Accept; Log LogAcceptFailed;
                          CloseListener; CloseChan] |}.
Proof.
  intros Hc. split.
  - exact (background_no_peer fuel c Hc).
  - exact (background_accept_failed fuel ln c Hc).
Qed.

Lemma X9_witness :
  background 9 [] {| ctx := Some 1; trace := [] |} =
    Blocked {| ctx := advance 1 (Some 1); trace := [Accept] |} /\
  background 9 (AcceptFailed :: [Accepted {| unread := [Value (wire "created")];
                                             tail := PeerIdle |}])
             {| ctx := Some 1; trace := [] |} =
    Returned ExitAcceptFailed
             {| ctx := advance 1 (Some 1);
                trace := [Accept; Log LogAcceptFailed;
                          CloseListener; CloseChan] |}.
Proof.
  apply (X9_first_accept_blocks_or_fails
           8 [Accepted {| unread := [Value (wire "created")]; tail := PeerIdle |}]
           (Some 1)).
  simpl. lia.
Defined.

(** X10.  The status variable lives across iterations (line 70), so a
    message that leaves it untouched, such as an object without a status
    member, is handled as a repeat of the message before: when the status
    it finds maps to a state, that state is sent once more. *)
Theorem X10_untouched_status_repeats
        (members : list (string * json)) (fuel : nat) (rest : list token)
        (t : ending) (v : statusInfo) (x : State) (c : Context)
        (tr : list event) :
  lacksStatus members = true ->
  mapped (Status v) = Some x ->
  live c 1 ->
  syncLoop (S fuel) {| unread := Value (JObject members) :: rest; tail := t |} v
           {| ctx := c; trace := tr |} =
  syncLoop fuel {| unread := rest; tail := t |} v
           {| ctx := advance 1 c; trace := tr ++ [Log LogGotData; Send x] |} /\
  states v (Value (JObject members) :: rest) = x :: states v rest.
Proof.
  intros Hms Hx Hc.
  assert (Hj : unmarshal (JObject members) v = (v, None))
    by (apply object_lacksStatus, Hms).
  assert (Hs : Status v <> "stopped")
    by (intros E; rewrite E in Hx; discriminate Hx).
  split.
  - rewrite (syncLoop_continue fuel _ rest t v v c tr Hc Hj Hs).
    unfold reaction. rewrite Hx. reflexivity.
  - rewrite (states_continue _ rest v v Hj Hs), sent_reaction, Hx. reflexivity.
Qed.

Lemma X10_witness :
  syncLoop 2 {| unread := Value (JObject [("pid", JNumber "7")]) :: [];
                tail := PeerIdle |}
           {| Status := "running" |} {| ctx := None; trace := [] |} =
  syncLoop 1 {| unread := []; tail := PeerIdle |} {| Status := "running" |}
           {| ctx := advance 1 None;
              trace := [] ++ [Log LogGotData; Send StateRunning] |} /\
  states {| Status := "running" |} (Value (JObject [("pid", JNumber "7")]) :: []) =
    StateRunning :: states {| Status := "running" |} [].
Proof.
  apply (X10_untouched_status_repeats
           [("pid", JNumber "7")] 1 [] PeerIdle {| Status := "running" |}
           StateRunning None []).
  - reflexivity.
  - reflexivity.
  - exact I.
Defined.
